(** * Cirq: the acting context of the simulator and the deprecation helpers

    Shallow embedding of [cirq/sim/act_on_args.py] (class [ActOnArgs] with
    its [measure] method, and [strat_act_on_from_apply_decompose]) and of the
    behaviour of [cirq/_compat.py] that [cirq/_compat_test.py] exercises.

    Python objects are mutated in place and exceptions leave the mutations
    made so far visible, so every method is a function from the state before
    the call to an outcome (a returned value or a raised exception) paired
    with the state after it. *)

From Stdlib Require Import ZArith Ascii String.
From stdpp Require Import gmap strings list.

Local Open Scope Z_scope.

(** ** Python outcomes *)

(** The exceptions that occur in the modelled code.  [Foreign] stands for
    whatever code outside the module raises. *)
Inductive exception : Type :=
  | ValueError (msg : string)
  | AssertionError (msg : string)
  | KeyError
  | IndexError
  | Foreign (what : string).

Inductive outcome (A : Type) : Type :=
  | Returned (a : A)
  | Raised (e : exception).
Arguments Returned {A} a.
Arguments Raised {A} e.

Definition is_raised {A} (r : outcome A) : bool :=
  match r with Raised _ => true | Returned _ => false end.

(** A computation over a mutable state [S]. *)
Definition M (S A : Type) : Type := S → outcome A * S.

Definition raise {S A} (e : exception) : M S A := λ s, (Raised e, s).
Definition modify {S} (f : S → S) : M S unit := λ s, (Returned tt, f s).
Definition get {S} : M S S := λ s, (Returned s, s).

#[global] Instance M_ret {S} : MRet (M S) := λ A a s, (Returned a, s).
#[global] Instance M_bind {S} : MBind (M S) := λ A B k c s,
  match c s with
  | (Returned a, s1) => k a s1
  | (Raised e, s1) => (Raised e, s1)
  end.

(** [try: body finally: fin].  The [finally] block runs on the state the
    body left, whether the body returned or raised; the body's outcome is
    what the statement produces unless the block itself raises. *)
Definition try_finally {S A} (body : M S A) (fin : M S unit) : M S A :=
  λ s, match body s with
       | (r, s1) =>
           match fin s1 with
           | (Returned _, s2) => (r, s2)
           | (Raised e, s2) => (Raised e, s2)
           end
       end.

(** ** [ActOnArgs] *)

Section act_on_args.

(** [PRNG] is [np.random.RandomState]; [Tensor] is whatever a concrete
    subclass adds to the object (the state tensor it measures). *)
Context {PRNG Tensor : Type}.

(** The object after [__init__]: [axes] is a tuple of ints, the log a
    dict from measurement keys to the recorded lists of ints. *)
Record ActOnArgs : Type := mkActOnArgs {
  axes : list Z;
  prng : PRNG;
  log_of_measurement_results : gmap string (list Z);
  tensor : Tensor;
}.

Definition set_axes (new_axes : list Z) (args : ActOnArgs) : ActOnArgs :=
  {| axes := new_axes; prng := prng args;
     log_of_measurement_results := log_of_measurement_results args;
     tensor := tensor args |}.

Definition set_log (new_log : gmap string (list Z)) (args : ActOnArgs)
  : ActOnArgs :=
  {| axes := axes args; prng := prng args;
     log_of_measurement_results := new_log;
     tensor := tensor args |}.

(** The abstract method [_perform_measurement(self) -> List[int]], supplied
    by the subclass.  It receives the whole object and may change it. *)
Variable _perform_measurement : M ActOnArgs (list Z).

(** [repr] of a key, as [{key!r}] formats it. *)
Variable repr : string → string.

(** [bit ^ (bit < 2 and mask)]: the right operand is [mask] when
    [bit < 2] and [False] otherwise; a bool is the int 0 or 1 under [^]. *)
Definition corrected_bit (bit : Z) (mask : bool) : Z :=
  Z.lxor bit (Z.b2z (if bit <? 2 then mask else false)).

(** [[bit ^ (bit < 2 and mask) for bit, mask in zip(bits, invert_mask)]] *)
Definition corrected_bits (bits : list Z) (invert_mask : list bool) : list Z :=
  (λ bm, corrected_bit bm.1 bm.2) <$> zip bits invert_mask.

Definition measure (key : string) (invert_mask : list bool) : M ActOnArgs unit :=
  bits ← _perform_measurement;
  let corrected := corrected_bits bits invert_mask in
  self ← get;
  if decide (key ∈ dom (log_of_measurement_results self)) then
     raise (ValueError ("Measurement already logged to key " +:+ repr key))
   else
     modify (λ self,
       set_log (<[key := corrected]> (log_of_measurement_results self)) self).

End act_on_args.

(** ** [strat_act_on_from_apply_decompose] *)

(** The function returns [True] or the singleton [NotImplemented]. *)
Inductive strat_result : Type := NotImplemented | PyTrue.

(** [for x in l: body(x)] *)
Fixpoint for_each {S A} (l : list A) (body : A → M S unit) : M S unit :=
  match l with
  | [] => mret tt
  | x :: l' => body x;; for_each l' body
  end.

Definition lift_outcome {S A} (r : outcome A) : M S A := λ s, (r, s).

Section decompose.

Context {PRNG Tensor : Type}.
Context {Qubit : Type} `{Countable Qubit}.
Context {Operation Val Shape : Type}.

Local Abbreviation Args := (@ActOnArgs PRNG Tensor).

(** [operation.qubits] *)
Variable qubits_of : Operation → list Qubit.

(** [cirq.protocols.decompose_protocol._try_decompose_into_operations_and_qubits]
    is imported, not defined here: it yields the operations ([None] when
    the value does not decompose), the qubits and the qid shape. *)
Variable _try_decompose_into_operations_and_qubits :
  Val → option (list Operation) * list Qubit * Shape.

(** [protocols.act_on(operation, args)] is imported as well: it mutates
    [args] as it sees fit and returns nothing, or raises. *)
Variable act_on : Operation → M Args unit.

(** One application of [protocols.act_on], as an observer sees it: the
    operation, the axes the context carried when the call was made, and
    whether the call returned. *)
Record application : Type := mkApplication {
  applied_op : Operation;
  applied_axes : list Z;
  applied_ok : bool;
}.

(** The context together with the history of the applications made on it.
    The history is ghost state: only [call_act_on] extends it. *)
Record run : Type := mkRun {
  args_of : Args;
  history : list application;
}.

Definition on_args (f : Args → Args) (w : run) : run :=
  {| args_of := f (args_of w); history := history w |}.

Definition call_act_on (operation : Operation) : M run unit :=
  λ w, match act_on operation (args_of w) with
       | (r, args') =>
           (r, {| args_of := args';
                  history := history w ++
                    [{| applied_op := operation;
                        applied_axes := axes (args_of w);
                        applied_ok := negb (is_raised r) |}] |})
       end.

(** [{q: args.axes[i] for i, q in enumerate(qubits)}]: the entries are
    inserted in order, so that a later duplicate of a key overwrites an
    earlier one; [args.axes[i]] raises when [i] is out of range. *)
Fixpoint dict_of_enumerate (the_axes : list Z) (i : nat) (qubits : list Qubit)
    (acc : gmap Qubit Z) : outcome (gmap Qubit Z) :=
  match qubits with
  | [] => Returned acc
  | q :: qubits' =>
      match the_axes !! i with
      | Some a => dict_of_enumerate the_axes (S i) qubits' (<[q := a]> acc)
      | None => Raised IndexError
      end
  end.

(** [tuple(qubit_map[q] for q in operation.qubits)] *)
Definition remap (qubit_map : gmap Qubit Z) (operation : Operation)
  : outcome (list Z) :=
  match mapM (λ q, qubit_map !! q) (qubits_of operation) with
  | Some new_axes => Returned new_axes
  | None => Raised KeyError
  end.

(** The body of the loop:
    [args.axes = tuple(qubit_map[q] for q in operation.qubits)], then
    [protocols.act_on(operation, args)]. *)
Definition apply_remapped (qubit_map : gmap Qubit Z) (operation : Operation)
  : M run unit :=
  new_axes ← lift_outcome (remap qubit_map operation);
  modify (on_args (set_axes new_axes));;
  call_act_on operation.

Definition strat_act_on_from_apply_decompose (val : Val) : M run strat_result :=
  match _try_decompose_into_operations_and_qubits val with
  | (None, _, _) => mret NotImplemented
  | (Some operations, qubits, _) =>
      w ← get;
      if decide (length qubits = length (axes (args_of w))) then
        qubit_map ← lift_outcome (dict_of_enumerate (axes (args_of w)) 0 qubits ∅);
        let old_axes := axes (args_of w) in
        try_finally
          (for_each operations (apply_remapped qubit_map))
          (modify (on_args (set_axes old_axes)));;
        mret PyTrue
      else raise (AssertionError "")
  end.

End decompose.

(** ** The deprecation helpers of [cirq/_compat.py] *)

Module Compat.

(** *** Milestones *)

Definition is_digit (c : ascii) : bool :=
  (48 <=? nat_of_ascii c)%nat && (nat_of_ascii c <=? 57)%nat.

Fixpoint all_digits (s : string) : bool :=
  match s with
  | EmptyString => true
  | String c s' => is_digit c && all_digits s'
  end.

(** The rest of [s] after its leading digits. *)
Fixpoint drop_digits (s : string) : string :=
  match s with
  | EmptyString => EmptyString
  | String c s' => if is_digit c then drop_digits s' else s
  end.

Definition starts_with_digit (s : string) : bool :=
  match s with
  | String c _ => is_digit c
  | EmptyString => false
  end.

(** Modelled from the spec: [_compat.py] is not part of the sources at
    hand, only its tests are.  The milestone of a deprecation must match
    the pattern "vMAJOR.MINOR": the letter v, a major number, a dot and a
    minor number, each number being one or more decimal digits. *)
Definition matches_milestone (deadline : string) : bool :=
  match deadline with
  | String c major_etc =>
      Ascii.eqb c "v" && starts_with_digit major_etc &&
      match drop_digits major_etc with
      | String c' minor =>
          Ascii.eqb c' "." && starts_with_digit minor
          && bool_decide (drop_digits minor = "")
      | EmptyString => false
      end
  | EmptyString => false
  end.

(** The same pattern, said rather than computed. *)
Definition is_milestone (deadline : string) : Prop :=
  ∃ major minor,
    major ≠ "" ∧ minor ≠ ""
    ∧ all_digits major = true ∧ all_digits minor = true
    ∧ deadline = "v" +:+ major +:+ "." +:+ minor.

(** Modelled from the spec: the validation every decorator runs on its
    milestone when it is applied; the tests expect an [AssertionError]
    whose message is "deadline should match vX.Y". *)
Definition validate_deadline (deadline : string) : outcome unit :=
  if matches_milestone deadline then Returned tt
  else Raised (AssertionError "deadline should match vX.Y").

(** *** Diagnostics *)

Inductive category : Type :=
  | DeprecationWarning | UserWarning | RuntimeWarning.

Record diagnostic : Type := mkDiagnostic {
  diag_category : category;
  diag_text : string;
}.

(** Whether a warning is shown at every use or at the first use only. *)
Inductive mode : Type := EveryUse | FirstUse.

(** The process-wide surroundings of a use of deprecated functionality:
    the policy switch, the reporting mode, the messages already reported
    and the diagnostics emitted so far. *)
Record env : Type := mkEnv {
  self_use : bool;
  reporting : mode;
  reported : gset string;
  emitted : list diagnostic;
}.

Definition emit (msg : string) (e : env) : env :=
  {| self_use := self_use e; reporting := reporting e;
     reported := {[ msg ]} ∪ reported e;
     emitted := emitted e ++ [{| diag_category := DeprecationWarning;
                                  diag_text := msg |}] |}.

(** Modelled from the spec: "on first use, a warning is emitted once (or
    on every use, depending on configured policy)", and "a global policy
    switch additionally allows upgrading deprecation warnings into hard
    failures for internal self-use".  The tests expect the failure to be
    a [ValueError] that says "Cirq should not use deprecated
    functionality". *)
Definition warn_or_error (msg : string) : M env unit :=
  e ← get;
  if self_use e then
    raise (ValueError ("Cirq should not use deprecated functionality: " +:+ msg))
  else
    match reporting e with
    | EveryUse => modify (emit msg)
    | FirstUse =>
        if decide (msg ∈ reported e) then mret tt else modify (emit msg)
    end.

(** Modelled from the spec: the diagnostic states "the deprecated name, a
    target removal milestone [...] and a suggested remediation"; the
    wording around them is the one the tests look for. *)
Definition deprecation_message (what deadline fix_ : string) : string :=
  what +:+ " was used but is deprecated. It will be removed in cirq "
       +:+ deadline +:+ ". " +:+ fix_.

(** [needle] occurs in [hay]. *)
Definition contains (needle hay : string) : Prop :=
  ∃ before after, hay = before +:+ needle +:+ after.

(** What one reported use of [what] changes in the surroundings under the
    warning policy: the switches stay, and the diagnostics grow by [new],
    which is one warning at every use, or one at the first use of this
    message and none later, according to the mode; the warning is a
    [DeprecationWarning] whose text has the name, the milestone and the
    remediation. *)
Definition reports_use (what deadline fix_ : string) (e e' : env) : Prop :=
  self_use e' = self_use e ∧ reporting e' = reporting e
  ∧ deprecation_message what deadline fix_ ∈ reported e'
  ∧ ∃ new,
      emitted e' = emitted e ++ new
      ∧ match reporting e with
        | EveryUse => length new = 1%nat
        | FirstUse =>
            if decide (deprecation_message what deadline fix_ ∈ reported e)
            then new = [] else length new = 1%nat
        end
      ∧ Forall (λ d, diag_category d = DeprecationWarning
                     ∧ contains what (diag_text d)
                     ∧ contains deadline (diag_text d)
                     ∧ contains fix_ (diag_text d)) new.

(** *** The decorators *)

(** A Python callable: its [__qualname__] and what a call does. *)
Record callable (A B : Type) : Type := mkCallable {
  qualname : string;
  call : A → M env B;
}.
Arguments mkCallable {A B} qualname call.
Arguments qualname {A B} c.
Arguments call {A B} c a.

Definition name_or_qualname {A B} (name : option string) (func : callable A B)
  : string :=
  match name with Some n => n | None => qualname func end.

(** Modelled from the spec: [deprecated(deadline=, fix=, name=)] checks the
    milestone and returns the decorator; the decorated function reports
    the use and then calls the function it wraps. *)
Definition deprecated {A B} (deadline fix_ : string) (name : option string)
  : outcome (callable A B → callable A B) :=
  match validate_deadline deadline with
  | Raised e => Raised e
  | Returned _ => Returned (λ func,
      {| qualname := qualname func;
         call := λ a,
           warn_or_error
             (deprecation_message (name_or_qualname name func) deadline fix_);;
           call func a |})
  end.

(** Modelled from the spec: [deprecated_parameter] reports a use only when
    [match_] recognises the deprecated parameter among the arguments,
    which [rewrite] then translates for the wrapped function. *)
Definition deprecated_parameter {A B} (deadline fix_ : string)
    (func_name : option string) (parameter_desc : string)
    (match_ : A → bool) (rewrite : A → A)
  : outcome (callable A B → callable A B) :=
  match validate_deadline deadline with
  | Raised e => Raised e
  | Returned _ => Returned (λ func,
      {| qualname := qualname func;
         call := λ a,
           if match_ a then
             warn_or_error
               (deprecation_message
                  ("The " +:+ parameter_desc +:+ " parameter of "
                     +:+ name_or_qualname func_name func) deadline fix_);;
             call func (rewrite a)
           else call func a |})
  end.

(** Modelled from the spec: [deprecated_class] wraps a class, seen here as
    its constructor, so that instantiating it reports the use. *)
Definition deprecated_class {A B} (deadline fix_ : string) (name : option string)
  : outcome (callable A B → callable A B) :=
  match validate_deadline deadline with
  | Raised e => Raised e
  | Returned _ => Returned (λ cls,
      {| qualname := qualname cls;
         call := λ a,
           warn_or_error
             (deprecation_message (name_or_qualname name cls) deadline fix_);;
           call cls a |})
  end.

(** Modelled from the spec: [deprecate_attributes(module, {attr:
    (deadline, fix)})] checks every milestone of the dict and returns the
    wrapped module, of which only attribute access is modelled: reading a
    deprecated attribute reports the use, then the attribute is read from
    the module as usual. *)
Definition deprecate_attributes {V} (module : gmap string V)
    (deprecated_attributes : gmap string (string * string))
  : outcome (string → M env V) :=
  if decide (map_Forall (λ _ df, matches_milestone df.1 = true)
               deprecated_attributes)
  then Returned (λ attr,
    match deprecated_attributes !! attr with
    | Some (deadline, fix_) =>
        warn_or_error (deprecation_message attr deadline fix_)
    | None => mret tt
    end;;
    match module !! attr with
    | Some v => mret v
    | None => raise (Foreign "AttributeError")
    end)
  else Raised (AssertionError "deadline should match vX.Y").

End Compat.

(** ** A small concrete simulator, to run the definitions on *)

Module Toy.

(** The context of a simulator whose tensor is the list of values the next
    measurement yields and whose generator is a counter of draws. *)
Definition args0 (the_axes : list Z) (log : gmap string (list Z))
    (values : list Z) : @ActOnArgs nat (list Z) :=
  {| axes := the_axes; prng := 0%nat;
     log_of_measurement_results := log; tensor := values |}.

(** Measuring yields the values of the tensor and draws once. *)
Definition perform_measurement : M (@ActOnArgs nat (list Z)) (list Z) :=
  λ self, (Returned (tensor self),
           {| axes := axes self; prng := S (prng self);
              log_of_measurement_results := log_of_measurement_results self;
              tensor := tensor self |}).

Definition repr (key : string) : string := "'" +:+ key +:+ "'".

(** Operations on qubits numbered by [nat]; [op_fails] makes
    [act_on] raise, after it has clobbered the axes. *)
Record operation : Type := mkOp { op_qubits : list nat; op_fails : bool }.

Definition act_on (op : operation) : M (@ActOnArgs nat (list Z)) unit :=
  λ self,
    if op_fails op then
      (Raised (Foreign "TypeError"), set_axes [] self)
    else
      (Returned tt,
       {| axes := axes self; prng := prng self;
          log_of_measurement_results := log_of_measurement_results self;
          tensor := axes self ++ tensor self |}).

(** A value is a list of operations on the qubits 10 and 11, or [None]. *)
Definition try_decompose (val : option (list operation))
  : option (list operation) * list nat * unit :=
  (val, [10%nat; 11%nat], tt).

Definition strat := strat_act_on_from_apply_decompose op_qubits try_decompose act_on.

Definition three_ops : list operation :=
  [mkOp [11; 10]%nat false; mkOp [10]%nat true; mkOp [11]%nat false].

(** [new_func] and [old_func] of [test_deprecated]. *)
Definition new_func : Compat.callable (Z * Z) Z :=
  {| Compat.qualname := "new_func"; Compat.call := λ ab, mret (ab.1 + ab.2) |}.

Definition old_func : Compat.callable (Z * Z) Z :=
  {| Compat.qualname := "old_func"; Compat.call := Compat.call new_func |}.

(** The function [f] of [test_deprecated_parameter]: its arguments are
    [new_count] and [double_count], each given or not. *)
Definition f : Compat.callable (option Z * option Z) Z :=
  {| Compat.qualname := "f";
     Compat.call := λ kwargs,
       match kwargs with
       | (Some new_count, None) => mret new_count
       | _ => raise (Foreign "TypeError")
       end |}.

Definition double_count_given (kwargs : option Z * option Z) : bool :=
  bool_decide (is_Some kwargs.2).

Definition double_it (kwargs : option Z * option Z) : option Z * option Z :=
  ((λ n, n * 2) <$> kwargs.2, None).

(** [my_module] of [test_wrap_module]. *)
Definition my_module : gmap string string :=
  {[ "foo" := "foo"; "bar" := "bar" ]}.

Definition env0 (policy : bool) (m : Compat.mode) : Compat.env :=
  {| Compat.self_use := policy; Compat.reporting := m;
     Compat.reported := ∅; Compat.emitted := [] |}.

Definition run0 (the_axes : list Z) : run (Operation := operation) :=
  {| args_of := args0 the_axes ∅ []; history := [] |}.

End Toy.

(** More runs of the small simulator. *)
Module ToyRuns.

Definition two_ops : list Toy.operation :=
  [Toy.mkOp [11; 10]%nat false; Toy.mkOp [10]%nat false].

(** The second operation acts on qubit 12, which no decomposition has. *)
Definition stray_ops : list Toy.operation :=
  [Toy.mkOp [11; 10]%nat false; Toy.mkOp [12]%nat false; Toy.mkOp [10]%nat false].

Definition measured (values : list Z) : @ActOnArgs nat (list Z) :=
  Toy.args0 [] ∅ values.

End ToyRuns.

(** * Properties *)

(** ** Generic facts about the computations *)

Lemma bind_returned {S A B} (c : M S A) (k : A → M S B) s a s1 :
  c s = (Returned a, s1) → (c ≫= k) s = k a s1.
Proof. intros Hc. unfold mbind, M_bind. by rewrite Hc. Qed.

Lemma bind_raised {S A B} (c : M S A) (k : A → M S B) s e s1 :
  c s = (Raised e, s1) → (c ≫= k) s = (Raised e, s1).
Proof. intros Hc. unfold mbind, M_bind. by rewrite Hc. Qed.

(** ** The inversion mask *)

Lemma corrected_bit_below_2 bit mask :
  bit < 2 → corrected_bit bit mask = Z.lxor bit (Z.b2z mask).
Proof.
  intros Hlt. unfold corrected_bit.
  by destruct (Z.ltb_spec bit 2); [|lia].
Qed.

Lemma corrected_bit_from_2 bit mask : 2 ≤ bit → corrected_bit bit mask = bit.
Proof.
  intros Hge. unfold corrected_bit.
  destruct (Z.ltb_spec bit 2); [lia|]. apply Z.lxor_0_r.
Qed.

Lemma corrected_bit_unset bit : corrected_bit bit false = bit.
Proof. unfold corrected_bit. destruct (bit <? 2); apply Z.lxor_0_r. Qed.

Lemma corrected_bit_flip bit : 0 ≤ bit < 2 → corrected_bit bit true = 1 - bit.
Proof.
  intros Hb. assert (bit = 0 ∨ bit = 1) as [-> | ->] by lia; reflexivity.
Qed.

Lemma length_corrected_bits bits invert_mask :
  length (corrected_bits bits invert_mask)
  = (length bits `min` length invert_mask)%nat.
Proof. unfold corrected_bits. by rewrite length_fmap, length_zip_with. Qed.

Lemma lookup_corrected_bits bits invert_mask i bit mask :
  bits !! i = Some bit → invert_mask !! i = Some mask →
  corrected_bits bits invert_mask !! i = Some (corrected_bit bit mask).
Proof.
  intros Hb Hm. unfold corrected_bits.
  rewrite list_lookup_fmap, lookup_zip_with, Hb. simpl. by rewrite Hm.
Qed.

(** ** [ActOnArgs.measure] *)

Section measure_properties.

Context {PRNG Tensor : Type}.
Variable _perform_measurement : M (@ActOnArgs PRNG Tensor) (list Z).
Variable repr : string → string.

Local Abbreviation log := log_of_measurement_results.

(** What [measure] does once the measurement has returned [bits], by the
    presence of the key in the log the measurement left. *)
Lemma measure_fresh key invert_mask self bits self1 :
  _perform_measurement self = (Returned bits, self1) →
  key ∉ dom (log self1) →
  measure _perform_measurement repr key invert_mask self
  = (Returned tt,
     set_log (<[key := corrected_bits bits invert_mask]> (log self1)) self1).
Proof.
  intros Hperf Hfresh. unfold measure.
  rewrite (bind_returned _ _ _ _ _ Hperf). simpl.
  unfold mbind, M_bind, get. by rewrite decide_False.
Qed.

Lemma measure_duplicate key invert_mask self bits self1 :
  _perform_measurement self = (Returned bits, self1) →
  key ∈ dom (log self1) →
  measure _perform_measurement repr key invert_mask self
  = (Raised (ValueError ("Measurement already logged to key " +:+ repr key)),
     self1).
Proof.
  intros Hperf Hdup. unfold measure.
  rewrite (bind_returned _ _ _ _ _ Hperf). simpl.
  unfold mbind, M_bind, get. by rewrite decide_True.
Qed.

Lemma measure_perform_raised key invert_mask self e self1 :
  _perform_measurement self = (Raised e, self1) →
  measure _perform_measurement repr key invert_mask self = (Raised e, self1).
Proof. intros Hperf. unfold measure. by apply bind_raised. Qed.

(** C1.  When the measurement returns N values and the invert mask has
    length N, [measure] records under the key a list of N values: a value
    whose mask entry is unset is recorded unchanged, and a bit (the code
    asks no more than that the value be below 2) is recorded as
    [bits[i] XOR mask[i]], that is flipped, 0 to 1 and 1 to 0, where its
    mask entry is set.  Equal lengths are the caller's obligation and a
    hypothesis here. *)
Theorem measure_flips_masked_bits key invert_mask self bits self1 :
  _perform_measurement self = (Returned bits, self1) →
  key ∉ dom (log self1) →
  length invert_mask = length bits →
  ∃ corrected,
    measure _perform_measurement repr key invert_mask self
    = (Returned tt, set_log (<[key := corrected]> (log self1)) self1)
    ∧ length corrected = length bits
    ∧ ∀ i bit mask,
        bits !! i = Some bit → invert_mask !! i = Some mask →
        (bit < 2 → corrected !! i = Some (Z.lxor bit (Z.b2z mask)))
        ∧ (mask = false → corrected !! i = Some bit)
        ∧ (mask = true → 0 ≤ bit < 2 → corrected !! i = Some (1 - bit)).
Proof.
  intros Hperf Hfresh Hlen.
  exists (corrected_bits bits invert_mask). split; [|split].
  - by apply measure_fresh.
  - rewrite length_corrected_bits. lia.
  - intros i bit mask Hb Hm.
    rewrite (lookup_corrected_bits _ _ _ _ _ Hb Hm).
    split; [|split].
    + intros Hlt. by rewrite corrected_bit_below_2.
    + intros ->. by rewrite corrected_bit_unset.
    + intros -> Hbit. by rewrite corrected_bit_flip.
Qed.

(** C10.  Whatever the lengths of the measured list and of the invert
    mask, [measure] raises only if the measurement raised or the key is
    taken; otherwise it records a list cut to the shorter of the two
    lengths, in which a measured value of 2 or more is kept as it is,
    whatever its mask entry. *)
Theorem measure_truncates_and_keeps_large_values key invert_mask self bits self1 :
  _perform_measurement self = (Returned bits, self1) →
  key ∉ dom (log self1) →
  ∃ corrected,
    measure _perform_measurement repr key invert_mask self
    = (Returned tt, set_log (<[key := corrected]> (log self1)) self1)
    ∧ length corrected = (length bits `min` length invert_mask)%nat
    ∧ ∀ i bit mask,
        bits !! i = Some bit → invert_mask !! i = Some mask → 2 ≤ bit →
        corrected !! i = Some bit.
Proof.
  intros Hperf Hfresh.
  exists (corrected_bits bits invert_mask). split; [|split].
  - by apply measure_fresh.
  - apply length_corrected_bits.
  - intros i bit mask Hb Hm Hge.
    rewrite (lookup_corrected_bits _ _ _ _ _ Hb Hm).
    by rewrite corrected_bit_from_2.
Qed.

(** From here on the subclass's measurement leaves the log alone: the log
    is written by [measure] only. *)
Hypothesis perform_keeps_log :
  ∀ self, log (_perform_measurement self).2 = log self.

(** C2.  When the log already holds the key, [measure] raises, and the log
    it leaves is the log it found: the entry under the key is the same
    and no entry was added.  The exception is the [ValueError] of the
    duplicate-key check whenever the measurement itself returned. *)
Theorem measure_duplicate_key_raises key invert_mask self :
  key ∈ dom (log self) →
  ∃ e self',
    measure _perform_measurement repr key invert_mask self = (Raised e, self')
    ∧ log self' = log self
    ∧ log self' !! key = log self !! key
    ∧ (is_raised (_perform_measurement self).1 = false →
       e = ValueError ("Measurement already logged to key " +:+ repr key)).
Proof.
  intros Hdup. pose proof (perform_keeps_log self) as Hlog.
  destruct (_perform_measurement self) as [[bits | e] self1] eqn:Hperf;
    simpl in Hlog.
  - eexists _, self1. split; [|split; [|split]].
    + apply (measure_duplicate _ _ _ _ _ Hperf). by rewrite Hlog.
    + done.
    + by rewrite Hlog.
    + done.
  - exists e, self1. split; [|split; [|split]].
    + by apply measure_perform_raised.
    + done.
    + by rewrite Hlog.
    + simpl. done.
Qed.

(** C9.  The measurement is performed before the log is consulted: when
    the key is already in the log, [measure] raises, yet the state it
    leaves is the state the measurement left, with all the measurement's
    effects, and the log is the one it found. *)
Theorem measure_performs_before_checking key invert_mask self :
  key ∈ dom (log self) →
  ∃ e,
    measure _perform_measurement repr key invert_mask self = (Raised e, (_perform_measurement self).2)
    ∧ log (_perform_measurement self).2 = log self.
Proof.
  intros Hdup. pose proof (perform_keeps_log self) as Hlog.
  destruct (_perform_measurement self) as [[bits | e] self1] eqn:Hperf;
    simpl in *.
  - eexists. split; [|done].
    apply (measure_duplicate _ _ _ _ _ Hperf). by rewrite Hlog.
  - exists e. split; [|done]. by apply measure_perform_raised.
Qed.

End measure_properties.

(** ** [strat_act_on_from_apply_decompose] *)

Section decompose_properties.

Context {PRNG Tensor : Type}.
Context {Qubit : Type} `{Countable Qubit}.
Context {Operation Val Shape : Type}.

Local Abbreviation Args := (@ActOnArgs PRNG Tensor).

Variable qubits_of : Operation → list Qubit.
Variable decompose : Val → option (list Operation) * list Qubit * Shape.
Variable act_on : Operation → M Args unit.

Local Abbreviation strat :=
  (strat_act_on_from_apply_decompose qubits_of decompose act_on).
Local Abbreviation Run := (run (PRNG := PRNG) (Tensor := Tensor) (Operation := Operation)).

Local Abbreviation step := (apply_remapped qubits_of act_on).

(** *** The qubit map *)

Lemma dict_of_enumerate_spec (the_axes : list Z) (qubits : list Qubit) i acc :
  (i + length qubits ≤ length the_axes)%nat →
  ∃ m, dict_of_enumerate the_axes i qubits acc = Returned m
     ∧ (∀ q, q ∉ qubits → m !! q = acc !! q)
     ∧ (∀ j q, qubits !! j = Some q →
               (∀ k, (j < k)%nat → qubits !! k ≠ Some q) →
               m !! q = the_axes !! (i + j)%nat).
Proof.
  revert i acc. induction qubits as [|q0 qubits IH]; intros i acc Hlen.
  - exists acc. split; [done|]. split; [done|]. intros j q Hj. done.
  - simpl in Hlen.
    destruct (lookup_lt_is_Some_2 the_axes i) as [a Ha]; [lia|].
    destruct (IH (S i) (<[q0 := a]> acc)) as (m & Hm & Hout & Hin); [lia|].
    exists m. split; [by simpl; rewrite Ha|]. split.
    + intros q Hq. apply not_elem_of_cons in Hq as [Hne Hq].
      rewrite (Hout q Hq). by rewrite lookup_insert_ne.
    + intros [|j] q Hj Hlast; simpl in Hj.
      * injection Hj as <-.
        assert (q0 ∉ qubits) as Hq.
        { intros [k Hk]%list_elem_of_lookup. by apply (Hlast (S k)); [lia|]. }
        rewrite (Hout q0 Hq), lookup_insert_eq. by rewrite Nat.add_0_r.
      * rewrite (Hin j q Hj).
        -- f_equal. lia.
        -- intros k Hk. apply (Hlast (S k)). lia.
Qed.

(** *** The loop *)

Lemma apply_remapped_unfold qubit_map operation (w : Run) :
  step qubit_map operation w
  = match mapM (λ q, qubit_map !! q) (qubits_of operation) with
    | None => (Raised KeyError, w)
    | Some new_axes =>
        match act_on operation (set_axes new_axes (args_of w)) with
        | (r, args') =>
            (r, {| args_of := args';
                   history := history w ++
                     [{| applied_op := operation; applied_axes := new_axes;
                         applied_ok := negb (is_raised r) |}] |})
        end
    end.
Proof.
  unfold apply_remapped, remap, lift_outcome, call_act_on, modify,
    mbind, M_bind.
  by destruct (mapM _ _).
Qed.

Lemma for_each_cons {S A} (x : A) l (body : A → M S unit) s :
  for_each (x :: l) body s
  = match body x s with
    | (Returned _, s1) => for_each l body s1
    | (Raised e, s1) => (Raised e, s1)
    end.
Proof. reflexivity. Qed.

Lemma for_each_step_history qubit_map (operations : list Operation) (w : Run) :
  ∃ apps,
    history (for_each operations (step qubit_map) w).2 = history w ++ apps
    ∧ applied_op <$> apps `prefix_of` operations
    ∧ Forall (λ app, Forall2 (λ q a, qubit_map !! q = Some a)
                       (qubits_of (applied_op app)) (applied_axes app)) apps
    ∧ (∀ i app, apps !! i = Some app → (S i < length apps)%nat →
                applied_ok app = true)
    ∧ ((for_each operations (step qubit_map) w).1 = Returned tt →
       applied_op <$> apps = operations
       ∧ Forall (λ app, applied_ok app = true) apps).
Proof.
  revert w. induction operations as [|op operations IH]; intros w.
  - exists []. simpl. rewrite app_nil_r. repeat split; done.
  - rewrite for_each_cons, apply_remapped_unfold.
    destruct (mapM (λ q, qubit_map !! q) (qubits_of op)) as [new_axes|] eqn:Hmap.
    2:{ exists []. simpl. rewrite app_nil_r.
        repeat split; try done. apply prefix_nil. }
    apply mapM_Some in Hmap.
    destruct (act_on op (set_axes new_axes (args_of w))) as [[[]|e] args'].
    + cbn [negb is_raised].
      match goal with |- context [for_each operations _ ?w1] =>
        destruct (IH w1) as (apps & Hhist & Hpre & Hmapped & Hok & Hall) end.
      simpl in Hhist.
      eexists (_ :: apps). split; [|split; [|split; [|split]]].
      * rewrite Hhist. by rewrite <- app_assoc.
      * simpl. by apply prefix_cons.
      * by constructor.
      * intros [|i] app Hi Hlt; simpl in *.
        -- by injection Hi as <-.
        -- apply (Hok i app Hi). lia.
      * intros Hret. destruct (Hall Hret) as [Hops Hoks].
        split; [by rewrite fmap_cons, Hops | by constructor].
    + eexists [_]. simpl. split; [done|]. split; [|split; [|split]].
      * apply prefix_cons, prefix_nil.
      * by repeat constructor.
      * intros [|i] app Hi Hlt; simpl in *; lia.
      * done.
Qed.

(** *** The strategy *)

Lemma strat_not_decomposable val (w : Run) qubits shape :
  decompose val = (None, qubits, shape) →
  strat val w = (Returned NotImplemented, w).
Proof. intros Hdec. unfold strat_act_on_from_apply_decompose. by rewrite Hdec. Qed.

Lemma strat_wrong_arity val (w : Run) operations qubits shape :
  decompose val = (Some operations, qubits, shape) →
  length qubits ≠ length (axes (args_of w)) →
  strat val w = (Raised (AssertionError ""), w).
Proof.
  intros Hdec Hlen. unfold strat_act_on_from_apply_decompose. rewrite Hdec.
  unfold mbind, M_bind, get. by rewrite decide_False.
Qed.

Lemma strat_decomposable val (w : Run) operations qubits shape :
  decompose val = (Some operations, qubits, shape) →
  length qubits = length (axes (args_of w)) →
  ∃ qubit_map,
    dict_of_enumerate (axes (args_of w)) 0 qubits ∅ = Returned qubit_map
    ∧ strat val w
      = (match (for_each operations (step qubit_map) w).1 with
         | Returned _ => Returned PyTrue
         | Raised e => Raised e
         end,
         on_args (set_axes (axes (args_of w)))
           (for_each operations (step qubit_map) w).2).
Proof.
  intros Hdec Hlen.
  destruct (dict_of_enumerate_spec (axes (args_of w)) qubits 0 ∅)
    as (qubit_map & Hmap & _); [lia|].
  exists qubit_map. split; [done|].
  unfold strat_act_on_from_apply_decompose. rewrite Hdec.
  unfold mbind, M_bind, get, lift_outcome, try_finally, modify.
  rewrite decide_True by done. rewrite Hmap.
  by destruct (for_each operations _ w) as [[[]|e] w1].
Qed.

(** C3.  Whatever the value and the context, and whether the strategy
    returns or raises (because a sub-operation could not be remapped,
    because applying one raised, or because the assertion failed), the
    context's axes after the call are the axes before it. *)
Theorem strat_restores_axes val (w : Run) :
  axes (args_of (strat val w).2) = axes (args_of w).
Proof.
  destruct (decompose val) as [[[operations|] qubits] shape] eqn:Hdec.
  - destruct (decide (length qubits = length (axes (args_of w)))) as [Hlen|Hlen].
    + destruct (strat_decomposable _ _ _ _ _ Hdec Hlen) as (qubit_map & _ & ->).
      done.
    + by rewrite (strat_wrong_arity _ _ _ _ _ Hdec Hlen).
  - by rewrite (strat_not_decomposable _ _ _ _ Hdec).
Qed.

(** C4.  A value that does not decompose makes the strategy return
    [NotImplemented], without raising and without touching the context;
    and the strategy returns [True] only if the value decomposed and
    [act_on] was called on every sub-operation, in order, and returned
    each time. *)
Theorem strat_not_implemented_or_all_applied val (w : Run) :
  (∀ qubits shape,
     decompose val = (None, qubits, shape) →
     strat val w = (Returned NotImplemented, w))
  ∧ (∀ w',
       strat val w = (Returned PyTrue, w') →
       ∃ operations qubits shape apps,
         decompose val = (Some operations, qubits, shape)
         ∧ history w' = history w ++ apps
         ∧ applied_op <$> apps = operations
         ∧ Forall (λ app, applied_ok app = true) apps).
Proof.
  split.
  - intros qubits shape Hdec. by apply (strat_not_decomposable _ _ qubits shape).
  - intros w' Hrun.
    destruct (decompose val) as [[[operations|] qubits] shape] eqn:Hdec.
    2:{ by rewrite (strat_not_decomposable _ _ _ _ Hdec) in Hrun. }
    destruct (decide (length qubits = length (axes (args_of w)))) as [Hlen|Hlen].
    2:{ by rewrite (strat_wrong_arity _ _ _ _ _ Hdec Hlen) in Hrun. }
    destruct (strat_decomposable _ _ _ _ _ Hdec Hlen) as (qubit_map & _ & Heq).
    rewrite Heq in Hrun.
    destruct (for_each_step_history qubit_map operations w)
      as (apps & Hhist & _ & _ & _ & Hall).
    destruct (for_each operations _ w) as [[[]|e] w1]; simpl in *; [|done].
    injection Hrun as <-. destruct Hall as [Hops Hoks]; [done|].
    by exists operations, qubits, shape, apps.
Qed.


End decompose_properties.

(** ** The properties at work on the small simulator *)

Ltac by_computation := apply (bool_decide_unpack _); vm_compute; exact I.

(** The strategy on three sub-operations of which the second one raises:
    the first two are applied, with remapped axes, the third is not, the
    exception comes out and the axes are back to [[5; 7]]. *)
Example strat_failure_injected :
  Toy.strat (Some Toy.three_ops) (Toy.run0 [5; 7])
  = (Raised (Foreign "TypeError"),
     {| args_of := {| axes := [5; 7]; prng := 0%nat;
                      log_of_measurement_results := ∅; tensor := [7; 5] |};
        history := [mkApplication (Toy.mkOp [11; 10]%nat false) [7; 5] true;
                    mkApplication (Toy.mkOp [10]%nat true) [5] false] |}).
Proof. vm_compute. reflexivity. Qed.

Example strat_unknown_qubit :
  Toy.strat (Some [Toy.mkOp [12]%nat false]) (Toy.run0 [5; 7])
  = (Raised KeyError, Toy.run0 [5; 7]).
Proof. vm_compute. reflexivity. Qed.

Example strat_wrong_number_of_axes :
  Toy.strat (Some []) (Toy.run0 [5]) = (Raised (AssertionError ""), Toy.run0 [5]).
Proof. vm_compute. reflexivity. Qed.

Example measure_mask_shorter_than_bits :
  measure Toy.perform_measurement Toy.repr "m" [true] (Toy.args0 [] ∅ [1; 0; 2])
  = (Returned tt,
     {| axes := []; prng := 1%nat;
        log_of_measurement_results := {[ "m" := [0] ]}; tensor := [1; 0; 2] |}).
Proof. vm_compute. reflexivity. Qed.

Lemma measure_flips_masked_bits_witness :
  ∃ corrected,
    measure Toy.perform_measurement Toy.repr "m" [true; true; false]
      (Toy.args0 [] ∅ [1; 0; 1])
    = (Returned tt,
       set_log (<[ "m" := corrected ]> ∅)
         (Toy.perform_measurement (Toy.args0 [] ∅ [1; 0; 1])).2)
    ∧ length corrected = 3%nat
    ∧ ∀ i bit mask,
        [1; 0; 1] !! i = Some bit → [true; true; false] !! i = Some mask →
        (bit < 2 → corrected !! i = Some (Z.lxor bit (Z.b2z mask)))
        ∧ (mask = false → corrected !! i = Some bit)
        ∧ (mask = true → 0 ≤ bit < 2 → corrected !! i = Some (1 - bit)).
Proof.
  apply (measure_flips_masked_bits Toy.perform_measurement Toy.repr "m"
           [true; true; false] (Toy.args0 [] ∅ [1; 0; 1]) [1; 0; 1]).
  - reflexivity.
  - by_computation.
  - reflexivity.
Defined.

Example measure_run_on_three_bits :
  measure Toy.perform_measurement Toy.repr "m" [true; true; false]
    (Toy.args0 [] ∅ [1; 0; 1])
  = (Returned tt,
     {| axes := []; prng := 1%nat;
        log_of_measurement_results := {[ "m" := [0; 1; 1] ]};
        tensor := [1; 0; 1] |}).
Proof. vm_compute. reflexivity. Qed.

Lemma measure_truncates_and_keeps_large_values_witness :
  ∃ corrected,
    measure Toy.perform_measurement Toy.repr "m" [true; true]
      (Toy.args0 [] ∅ [2; 1; 0])
    = (Returned tt,
       set_log (<[ "m" := corrected ]> ∅)
         (Toy.perform_measurement (Toy.args0 [] ∅ [2; 1; 0])).2)
    ∧ length corrected = (3 `min` 2)%nat
    ∧ ∀ i bit mask,
        [2; 1; 0] !! i = Some bit → [true; true] !! i = Some mask → 2 ≤ bit →
        corrected !! i = Some bit.
Proof.
  apply (measure_truncates_and_keeps_large_values Toy.perform_measurement
           Toy.repr "m" [true; true] (Toy.args0 [] ∅ [2; 1; 0]) [2; 1; 0]).
  - reflexivity.
  - by_computation.
Defined.

Lemma measure_duplicate_key_raises_witness :
  ∃ e self',
    measure Toy.perform_measurement Toy.repr "m" [true]
      (Toy.args0 [] {[ "m" := [1] ]} [0])
    = (Raised e, self')
    ∧ log_of_measurement_results self' = {[ "m" := [1] ]}
    ∧ log_of_measurement_results self' !! "m"
      = ({[ "m" := [1] ]} : gmap string (list Z)) !! "m"
    ∧ (is_raised (Toy.perform_measurement (Toy.args0 [] {[ "m" := [1] ]} [0])).1
       = false →
       e = ValueError ("Measurement already logged to key " +:+ Toy.repr "m")).
Proof.
  apply (measure_duplicate_key_raises Toy.perform_measurement Toy.repr).
  - intros self. reflexivity.
  - by_computation.
Defined.

Lemma measure_performs_before_checking_witness :
  ∃ e,
    measure Toy.perform_measurement Toy.repr "m" [true]
      (Toy.args0 [] {[ "m" := [1] ]} [0])
    = (Raised e,
       {| axes := []; prng := 1%nat;
          log_of_measurement_results := {[ "m" := [1] ]}; tensor := [0] |})
    ∧ log_of_measurement_results
        (Toy.perform_measurement (Toy.args0 [] {[ "m" := [1] ]} [0])).2
      = {[ "m" := [1] ]}.
Proof.
  apply (measure_performs_before_checking Toy.perform_measurement Toy.repr).
  - intros self. reflexivity.
  - by_computation.
Defined.

Lemma strat_not_implemented_or_all_applied_witness :
  Toy.strat None (Toy.run0 [5; 7]) = (Returned NotImplemented, Toy.run0 [5; 7])
  ∧ ∃ operations qubits shape apps,
      Toy.try_decompose (Some [Toy.mkOp [11; 10]%nat false; Toy.mkOp [10]%nat false])
      = (Some operations, qubits, shape)
      ∧ history (Toy.strat (Some [Toy.mkOp [11; 10]%nat false;
                                  Toy.mkOp [10]%nat false]) (Toy.run0 [5; 7])).2
        = [] ++ apps
      ∧ applied_op <$> apps = operations
      ∧ Forall (λ app, applied_ok app = true) apps.
Proof.
  split.
  - apply (strat_not_implemented_or_all_applied Toy.op_qubits Toy.try_decompose
             Toy.act_on None (Toy.run0 [5; 7])) with (qubits := [10; 11]%nat)
                                                     (shape := tt).
    reflexivity.
  - apply (strat_not_implemented_or_all_applied Toy.op_qubits Toy.try_decompose
             Toy.act_on _ (Toy.run0 [5; 7])).
    vm_compute. reflexivity.
Defined.


(** ** The deprecation helpers *)

Module CompatProperties.
Import Compat.

(** *** Strings *)

Lemma append_cons c s r : String c s +:+ r = String c (s +:+ r).
Proof. reflexivity. Qed.

Lemma append_nil_r s : s +:+ "" = s.
Proof.
  induction s as [|c s IH]; [done|]. by rewrite append_cons, IH.
Qed.

Lemma append_assoc s1 s2 s3 : (s1 +:+ s2) +:+ s3 = s1 +:+ s2 +:+ s3.
Proof.
  induction s1 as [|c s1 IH]; [done|]. by rewrite !append_cons, IH.
Qed.

Lemma contains_here needle after : contains needle (needle +:+ after).
Proof. by exists "", after. Qed.

Lemma contains_later needle before hay :
  contains needle hay → contains needle (before +:+ hay).
Proof.
  intros (b & a & ->). exists (before +:+ b), a. by rewrite append_assoc.
Qed.

Lemma contains_end needle : contains needle needle.
Proof. exists "", "". by rewrite append_nil_r. Qed.

Lemma message_contains_name what deadline fix_ :
  contains what (deprecation_message what deadline fix_).
Proof. apply contains_here. Qed.

Lemma message_contains_deadline what deadline fix_ :
  contains deadline (deprecation_message what deadline fix_).
Proof. do 2 apply contains_later. apply contains_here. Qed.

Lemma message_contains_fix what deadline fix_ :
  contains fix_ (deprecation_message what deadline fix_).
Proof. do 4 apply contains_later. apply contains_end. Qed.

(** *** The milestone pattern *)

Lemma split_digits s :
  ∃ d, all_digits d = true ∧ s = d +:+ drop_digits s.
Proof.
  induction s as [|c s (d & Hd & Hs)].
  - by exists "".
  - simpl. destruct (is_digit c) eqn:Hc.
    + exists (String c d). simpl. rewrite Hc, Hd. split; [done|].
      rewrite append_cons. by f_equal.
    + by exists "".
Qed.

Lemma drop_digits_app d r :
  all_digits d = true → drop_digits (d +:+ r) = drop_digits r.
Proof.
  induction d as [|c d IH]; [done|]. rewrite append_cons. simpl.
  intros [Hc Hd]%andb_prop. rewrite Hc. by apply IH.
Qed.

Lemma drop_digits_all d : all_digits d = true → drop_digits d = "".
Proof.
  intros Hd. rewrite <- (append_nil_r d) at 1. by rewrite drop_digits_app.
Qed.

Lemma starts_with_digit_all d :
  d ≠ "" → all_digits d = true → ∀ r, starts_with_digit (d +:+ r) = true.
Proof.
  destruct d as [|c d]; [done|]. simpl. by intros _ [Hc _]%andb_prop r.
Qed.

Lemma matches_milestone_spec deadline :
  matches_milestone deadline = true ↔ is_milestone deadline.
Proof.
  split.
  - destruct deadline as [|c s1]; simpl; [done|].
    intros [[Hv Hs1]%andb_prop Hrest]%andb_prop.
    apply Ascii.eqb_eq in Hv as ->.
    destruct (split_digits s1) as (major & Hmajor & Hsplit1).
    destruct (drop_digits s1) as [|c' minor] eqn:Hdrop1; [done|].
    apply andb_prop in Hrest as [[Hdot Hminor1]%andb_prop Hend].
    apply Ascii.eqb_eq in Hdot as ->.
    apply bool_decide_eq_true in Hend.
    destruct (split_digits minor) as (d2 & Hd2 & Hsplit2).
    rewrite Hend, append_nil_r in Hsplit2. subst d2.
    exists major, minor. repeat split; try done.
    + intros ->. rewrite Hsplit1 in Hs1. by vm_compute in Hs1.
    + intros ->. done.
    + by rewrite Hsplit1 at 1.
  - intros (major & minor & Hmajor & Hminor & Hd1 & Hd2 & ->).
    change (matches_milestone (String "v" (major +:+ String "." minor)) = true).
    unfold matches_milestone.
    rewrite (starts_with_digit_all major) by done.
    rewrite (drop_digits_app major) by done.
    change (drop_digits (String "." minor)) with (String "." minor).
    pose proof (starts_with_digit_all minor Hminor Hd2 "") as Hstart.
    rewrite append_nil_r in Hstart. cbn [andb Ascii.eqb].
    rewrite Hstart, (drop_digits_all minor) by done. by vm_compute.
Qed.

Lemma validate_deadline_spec deadline :
  (is_milestone deadline → validate_deadline deadline = Returned tt)
  ∧ (¬ is_milestone deadline →
     validate_deadline deadline
     = Raised (AssertionError "deadline should match vX.Y")).
Proof.
  unfold validate_deadline. rewrite <- matches_milestone_spec.
  by destruct (matches_milestone deadline).
Qed.

Lemma deprecate_attributes_spec {V} (module : gmap string V) attrs :
  (map_Forall (λ _ df, is_milestone df.1) attrs →
   ∃ getattr, deprecate_attributes module attrs = Returned getattr)
  ∧ (¬ map_Forall (λ _ df, is_milestone df.1) attrs →
     deprecate_attributes module attrs
     = Raised (AssertionError "deadline should match vX.Y")).
Proof.
  unfold deprecate_attributes.
  assert (map_Forall (λ (_ : string) (df : string * string),
                        matches_milestone df.1 = true) attrs
          ↔ map_Forall (λ (_ : string) (df : string * string),
                          is_milestone df.1) attrs) as Hiff.
  { unfold map_Forall. by setoid_rewrite matches_milestone_spec. }
  split; intros Hall; destruct (decide _) as [Hyes|Hno]; try done; [eauto| |].
  - by apply Hiff in Hall.
  - by apply Hiff in Hyes.
Qed.

(** C6.  Applying [deprecated], [deprecated_parameter], [deprecated_class]
    or [deprecate_attributes] with a milestone that matches "vMAJOR.MINOR"
    succeeds and yields the wrapper; with any other string the application
    itself raises the [AssertionError], so that no wrapper exists that a
    later call could reach. *)
Theorem decoration_validates_milestone {A B V : Type} deadline fix_ :
  (is_milestone deadline →
     (∀ name, ∃ dec,
        deprecated (A := A) (B := B) deadline fix_ name = Returned dec)
     ∧ (∀ func_name parameter_desc match_ rewrite, ∃ dec,
          deprecated_parameter (A := A) (B := B) deadline fix_ func_name
            parameter_desc match_ rewrite = Returned dec)
     ∧ (∀ name, ∃ dec,
          deprecated_class (A := A) (B := B) deadline fix_ name = Returned dec)
     ∧ (∀ (module : gmap string V) attr, ∃ getattr,
          deprecate_attributes module {[ attr := (deadline, fix_) ]}
          = Returned getattr))
  ∧ (¬ is_milestone deadline →
     (∀ name,
        deprecated (A := A) (B := B) deadline fix_ name
        = Raised (AssertionError "deadline should match vX.Y"))
     ∧ (∀ func_name parameter_desc match_ rewrite,
          deprecated_parameter (A := A) (B := B) deadline fix_ func_name
            parameter_desc match_ rewrite
          = Raised (AssertionError "deadline should match vX.Y"))
     ∧ (∀ name,
          deprecated_class (A := A) (B := B) deadline fix_ name
          = Raised (AssertionError "deadline should match vX.Y"))
     ∧ (∀ (module : gmap string V) attrs attr,
          attrs !! attr = Some (deadline, fix_) →
          deprecate_attributes module attrs
          = Raised (AssertionError "deadline should match vX.Y"))).
Proof.
  destruct (validate_deadline_spec deadline) as [Hvalid Hinvalid].
  split; intros Hm.
  - specialize (Hvalid Hm).
    unfold deprecated, deprecated_parameter, deprecated_class. rewrite Hvalid.
    repeat split; eauto.
    intros module attr. apply deprecate_attributes_spec.
    by apply map_Forall_singleton.
  - specialize (Hinvalid Hm).
    unfold deprecated, deprecated_parameter, deprecated_class. rewrite Hinvalid.
    repeat split; try done.
    intros module attrs attr Hattr. apply deprecate_attributes_spec.
    intros Hall. apply Hm. apply (Hall attr _ Hattr).
Qed.

(** *** Uses under either policy *)

Lemma warn_or_error_warns what deadline fix_ e :
  self_use e = false →
  ∃ e', warn_or_error (deprecation_message what deadline fix_) e
        = (Returned tt, e')
      ∧ reports_use what deadline fix_ e e'.
Proof.
  intros Hpolicy.
  assert (∀ new,
    new = [{| diag_category := DeprecationWarning;
              diag_text := deprecation_message what deadline fix_ |}] →
    Forall (λ d, diag_category d = DeprecationWarning
                 ∧ contains what (diag_text d)
                 ∧ contains deadline (diag_text d)
                 ∧ contains fix_ (diag_text d)) new) as Hnew.
  { intros new ->. repeat constructor; simpl.
    - apply message_contains_name.
    - apply message_contains_deadline.
    - apply message_contains_fix. }
  unfold warn_or_error, mbind, M_bind, get, modify, raise, reports_use.
  rewrite Hpolicy.
  destruct (reporting e) eqn:Hmode.
  - eexists. split; [done|]. simpl. rewrite Hmode.
    split; [done|]. split; [done|]. split; [set_solver|].
    eexists. split; [done|]. split; [done|]. by apply Hnew.
  - destruct (decide (_ ∈ reported e)) as [Hseen|Hfirst].
    + exists e. split; [done|].
      split; [done|]. split; [done|]. split; [done|].
      exists []. by rewrite app_nil_r.
    + eexists. split; [done|]. simpl. rewrite Hmode.
      split; [done|]. split; [done|]. split; [set_solver|].
      eexists. split; [done|]. split; [done|]. by apply Hnew.
Qed.

Lemma warn_or_error_fails msg e :
  self_use e = true →
  warn_or_error msg e
  = (Raised (ValueError
               ("Cirq should not use deprecated functionality: " +:+ msg)), e).
Proof.
  intros Hpolicy. unfold warn_or_error, mbind, M_bind, get, raise.
  by rewrite Hpolicy.
Qed.

Lemma deprecated_inv {A B} deadline fix_ name
    (dec : callable A B → callable A B) :
  deprecated deadline fix_ name = Returned dec →
  ∀ func a,
    call (dec func) a
    = (warn_or_error
         (deprecation_message (name_or_qualname name func) deadline fix_);;
       call func a).
Proof.
  unfold deprecated. destruct (validate_deadline deadline); [|done].
  by intros [= <-].
Qed.

Lemma deprecated_class_inv {A B} deadline fix_ name
    (dec : callable A B → callable A B) :
  deprecated_class deadline fix_ name = Returned dec →
  ∀ cls a,
    call (dec cls) a
    = (warn_or_error
         (deprecation_message (name_or_qualname name cls) deadline fix_);;
       call cls a).
Proof.
  unfold deprecated_class. destruct (validate_deadline deadline); [|done].
  by intros [= <-].
Qed.

Lemma deprecated_parameter_inv {A B} deadline fix_ func_name parameter_desc
    match_ rewrite (dec : callable A B → callable A B) :
  deprecated_parameter deadline fix_ func_name parameter_desc match_ rewrite
  = Returned dec →
  ∀ func a,
    call (dec func) a
    = if match_ a then
        warn_or_error
          (deprecation_message
             ("The " +:+ parameter_desc +:+ " parameter of "
                +:+ name_or_qualname func_name func) deadline fix_);;
        call func (rewrite a)
      else call func a.
Proof.
  unfold deprecated_parameter. destruct (validate_deadline deadline); [|done].
  by intros [= <-].
Qed.

Lemma deprecate_attributes_inv {V} (module : gmap string V) attrs getattr :
  deprecate_attributes module attrs = Returned getattr →
  ∀ attr deadline fix_,
    attrs !! attr = Some (deadline, fix_) →
    getattr attr
    = (warn_or_error (deprecation_message attr deadline fix_);;
       match module !! attr with
       | Some v => mret v
       | None => raise (Foreign "AttributeError")
       end).
Proof.
  unfold deprecate_attributes. destruct (decide _); [|done].
  intros [= <-] attr deadline fix_ Hattr. by rewrite Hattr.
Qed.

(** C7.  Under the warning policy, a call of a deprecated function, an
    instantiation of a deprecated class and a read of a deprecated
    attribute each emit diagnostics of one category only, the deprecation
    warning: one per use in the every-use mode, one at the first use of
    the message and none later in the first-use mode; the text of the
    warning has the deprecated name, the milestone and the remediation;
    and the use yields what the wrapped function, class or module
    yields. *)
Theorem deprecated_use_warns_and_returns {A B V : Type} deadline fix_ (e : env) :
  self_use e = false →
  (∀ name dec (func : callable A B) a,
     deprecated deadline fix_ name = Returned dec →
     ∃ e', reports_use (name_or_qualname name func) deadline fix_ e e'
         ∧ call (dec func) a e = call func a e')
  ∧ (∀ name dec (cls : callable A B) a,
       deprecated_class deadline fix_ name = Returned dec →
       ∃ e', reports_use (name_or_qualname name cls) deadline fix_ e e'
           ∧ call (dec cls) a e = call cls a e')
  ∧ (∀ (module : gmap string V) attrs getattr attr v,
       deprecate_attributes module attrs = Returned getattr →
       attrs !! attr = Some (deadline, fix_) →
       module !! attr = Some v →
       ∃ e', reports_use attr deadline fix_ e e'
           ∧ getattr attr e = (Returned v, e')).
Proof.
  intros Hpolicy. split; [|split].
  - intros name dec func a Hdec.
    destruct (warn_or_error_warns (name_or_qualname name func) deadline fix_
                e Hpolicy) as (e' & Hwarn & Hreport).
    exists e'. split; [done|].
    rewrite (deprecated_inv _ _ _ _ Hdec).
    by rewrite (bind_returned _ _ _ _ _ Hwarn).
  - intros name dec cls a Hdec.
    destruct (warn_or_error_warns (name_or_qualname name cls) deadline fix_
                e Hpolicy) as (e' & Hwarn & Hreport).
    exists e'. split; [done|].
    rewrite (deprecated_class_inv _ _ _ _ Hdec).
    by rewrite (bind_returned _ _ _ _ _ Hwarn).
  - intros module attrs getattr attr v Hdec Hattr Hv.
    destruct (warn_or_error_warns attr deadline fix_ e Hpolicy)
      as (e' & Hwarn & Hreport).
    exists e'. split; [done|].
    rewrite (deprecate_attributes_inv _ _ _ Hdec _ _ _ Hattr).
    rewrite (bind_returned _ _ _ _ _ Hwarn). by rewrite Hv.
Qed.

(** C8.  Under the self-use policy, calling a deprecated function, passing
    a deprecated parameter, reading a deprecated attribute and
    instantiating a deprecated class each raise the [ValueError] "Cirq
    should not use deprecated functionality"; nothing is emitted (the
    surroundings are left as they were) and the wrapped code is not
    run. *)
Theorem self_use_policy_fails_hard {A B V : Type} deadline fix_ (e : env) :
  self_use e = true →
  (∀ name dec (func : callable A B) a,
     deprecated deadline fix_ name = Returned dec →
     call (dec func) a e
     = (Raised (ValueError
                  ("Cirq should not use deprecated functionality: "
                     +:+ deprecation_message (name_or_qualname name func)
                           deadline fix_)), e))
  ∧ (∀ func_name parameter_desc match_ rewrite dec (func : callable A B) a,
       deprecated_parameter deadline fix_ func_name parameter_desc match_
         rewrite = Returned dec →
       match_ a = true →
       call (dec func) a e
       = (Raised (ValueError
                    ("Cirq should not use deprecated functionality: "
                       +:+ deprecation_message
                             ("The " +:+ parameter_desc +:+ " parameter of "
                                +:+ name_or_qualname func_name func)
                             deadline fix_)), e))
  ∧ (∀ (module : gmap string V) attrs getattr attr,
       deprecate_attributes module attrs = Returned getattr →
       attrs !! attr = Some (deadline, fix_) →
       getattr attr e
       = (Raised (ValueError
                    ("Cirq should not use deprecated functionality: "
                       +:+ deprecation_message attr deadline fix_)), e))
  ∧ (∀ name dec (cls : callable A B) a,
       deprecated_class deadline fix_ name = Returned dec →
       call (dec cls) a e
       = (Raised (ValueError
                    ("Cirq should not use deprecated functionality: "
                       +:+ deprecation_message (name_or_qualname name cls)
                             deadline fix_)), e)).
Proof.
  intros Hpolicy. split; [|split; [|split]].
  - intros name dec func a Hdec.
    rewrite (deprecated_inv _ _ _ _ Hdec).
    apply bind_raised. by apply warn_or_error_fails.
  - intros func_name parameter_desc match_ rewrite dec func a Hdec Hmatch.
    rewrite (deprecated_parameter_inv _ _ _ _ _ _ _ Hdec), Hmatch.
    apply bind_raised. by apply warn_or_error_fails.
  - intros module attrs getattr attr Hdec Hattr.
    rewrite (deprecate_attributes_inv _ _ _ Hdec _ _ _ Hattr).
    apply bind_raised. by apply warn_or_error_fails.
  - intros name dec cls a Hdec.
    rewrite (deprecated_class_inv _ _ _ _ Hdec).
    apply bind_raised. by apply warn_or_error_fails.
Qed.

(** *** The tests of [_compat_test.py], run on the model *)

Lemma v1_2_is_milestone : is_milestone "v1.2".
Proof. apply matches_milestone_spec. vm_compute. reflexivity. Defined.

Lemma invalid_is_no_milestone : ¬ is_milestone "invalid".
Proof.
  intros Hm%matches_milestone_spec. vm_compute in Hm. discriminate Hm.
Defined.

(** [test_deprecated]: [old_func(1, 2) == 3] with one warning. *)
Example test_deprecated_warns :
  ∃ dec, deprecated "v1.2" "Roll some dice." None = Returned dec
       ∧ call (dec Toy.old_func) (1, 2) (Toy.env0 false EveryUse)
         = (Returned 3,
            {| self_use := false; reporting := EveryUse;
               reported := {[ deprecation_message "old_func" "v1.2"
                                "Roll some dice." ]} ∪ ∅;
               emitted := [mkDiagnostic DeprecationWarning
                             (deprecation_message "old_func" "v1.2"
                                "Roll some dice.")] |}).
Proof. eexists. split; reflexivity. Qed.

(** [test_deprecated_parameter]: [f(double_count=1) == 2], and no warning
    on [f(new_count=1)]. *)
Example test_deprecated_parameter_rewrites :
  ∃ dec, deprecated_parameter "v1.2" "Double it yourself." (Some "test_func")
           "double_count" Toy.double_count_given Toy.double_it = Returned dec
       ∧ (call (dec Toy.f) (None, Some 1) (Toy.env0 false EveryUse)).1
         = Returned 2
       ∧ call (dec Toy.f) (Some 1, None) (Toy.env0 false EveryUse)
         = (Returned 1, Toy.env0 false EveryUse).
Proof. eexists. split; [|split]; reflexivity. Qed.

(** In the first-use mode a second call adds no second warning. *)
Example deprecated_twice_first_use :
  ∃ dec, deprecated "v1.2" "Roll some dice." None = Returned dec
       ∧ length (emitted
           ((call (dec Toy.old_func) (1, 2);; call (dec Toy.old_func) (3, 4))
              (Toy.env0 false FirstUse)).2) = 1%nat
       ∧ length (emitted
           ((call (dec Toy.old_func) (1, 2);; call (dec Toy.old_func) (3, 4))
              (Toy.env0 false EveryUse)).2) = 2%nat.
Proof. eexists. split; [reflexivity|]. split; vm_compute; reflexivity. Qed.

Lemma decoration_validates_milestone_witness :
  (is_milestone "v1.2"
   ∧ (∀ name, ∃ dec,
        deprecated (A := Z * Z) (B := Z) "v1.2" "Roll some dice." name
        = Returned dec)
   ∧ ∀ (module : gmap string string) attr, ∃ getattr,
       deprecate_attributes module {[ attr := ("v1.2", "Roll some dice.") ]}
       = Returned getattr)
  ∧ (¬ is_milestone "invalid"
     ∧ (∀ name,
          deprecated (A := Z * Z) (B := Z) "invalid" "Roll some dice." name
          = Raised (AssertionError "deadline should match vX.Y"))
     ∧ deprecate_attributes Toy.my_module
         {[ "foo" := ("invalid", "Roll some dice.") ]}
       = Raised (AssertionError "deadline should match vX.Y")).
Proof.
  split.
  - split; [exact v1_2_is_milestone|].
    destruct (decoration_validates_milestone (A := Z * Z) (B := Z)
                (V := string) "v1.2" "Roll some dice.") as [Hvalid _].
    destruct (Hvalid v1_2_is_milestone) as (Hfun & _ & _ & Hmod).
    split; [exact Hfun | exact Hmod].
  - split; [exact invalid_is_no_milestone|].
    destruct (decoration_validates_milestone (A := Z * Z) (B := Z)
                (V := string) "invalid" "Roll some dice.") as [_ Hinvalid].
    destruct (Hinvalid invalid_is_no_milestone) as (Hfun & _ & _ & Hmod).
    split; [exact Hfun|]. apply (Hmod _ _ "foo"). reflexivity.
Defined.

Lemma deprecated_use_warns_and_returns_witness :
  ∃ dec getattr,
    deprecated "v0.6" "use bar instead" None = Returned dec
    ∧ deprecate_attributes Toy.my_module {[ "foo" := ("v0.6", "use bar instead") ]}
      = Returned getattr
    ∧ (∃ e', reports_use "old_func" "v0.6" "use bar instead"
               (Toy.env0 false EveryUse) e'
           ∧ call (dec Toy.old_func) (1, 2) (Toy.env0 false EveryUse)
             = call Toy.old_func (1, 2) e')
    ∧ (∃ e', reports_use "foo" "v0.6" "use bar instead"
               (Toy.env0 false EveryUse) e'
           ∧ getattr "foo" (Toy.env0 false EveryUse) = (Returned "foo", e')).
Proof.
  eexists _, _. split; [reflexivity|]. split; [reflexivity|].
  destruct (deprecated_use_warns_and_returns (A := Z * Z) (B := Z)
              (V := string) "v0.6" "use bar instead" (Toy.env0 false EveryUse))
    as (Hfun & _ & Hattr); [reflexivity|].
  split.
  - exact (Hfun None _ Toy.old_func (1, 2) eq_refl).
  - exact (Hattr Toy.my_module {[ "foo" := ("v0.6", "use bar instead") ]}
             _ "foo" "foo" eq_refl eq_refl eq_refl).
Defined.

Lemma self_use_policy_fails_hard_witness :
  ∃ dec dec_param getattr,
    deprecated "v1.2" "Roll some dice." None = Returned dec
    ∧ deprecated_parameter "v1.2" "Double it yourself." (Some "test_func")
        "double_count" Toy.double_count_given Toy.double_it = Returned dec_param
    ∧ deprecate_attributes Toy.my_module {[ "foo" := ("v1.2", "Roll some dice.") ]}
      = Returned getattr
    ∧ is_raised (call (dec Toy.old_func) (1, 2) (Toy.env0 true EveryUse)).1 = true
    ∧ (call (dec Toy.old_func) (1, 2) (Toy.env0 true EveryUse)).2
      = Toy.env0 true EveryUse
    ∧ is_raised (call (dec_param Toy.f) (None, Some 1)
                   (Toy.env0 true EveryUse)).1 = true
    ∧ is_raised (getattr "foo" (Toy.env0 true EveryUse)).1 = true.
Proof.
  eexists _, _, _.
  split; [reflexivity|]. split; [reflexivity|]. split; [reflexivity|].
  destruct (self_use_policy_fails_hard (A := Z * Z) (B := Z) (V := string)
              "v1.2" "Roll some dice." (Toy.env0 true EveryUse))
    as (Hfun & _ & Hattr & _); [reflexivity|].
  destruct (self_use_policy_fails_hard (A := option Z * option Z) (B := Z)
              (V := string) "v1.2" "Double it yourself."
              (Toy.env0 true EveryUse))
    as (_ & Hparam & _ & _); [reflexivity|].
  split; [|split; [|split]].
  - exact (f_equal (λ p, is_raised p.1)
             (Hfun None _ Toy.old_func (1, 2) eq_refl)).
  - exact (f_equal snd (Hfun None _ Toy.old_func (1, 2) eq_refl)).
  - exact (f_equal (λ p, is_raised p.1)
             (Hparam (Some "test_func") "double_count"
                Toy.double_count_given Toy.double_it _ Toy.f (None, Some 1)
                eq_refl eq_refl)).
  - exact (f_equal (λ p, is_raised p.1)
             (Hattr Toy.my_module {[ "foo" := ("v1.2", "Roll some dice.") ]}
                _ "foo" eq_refl eq_refl)).
Defined.

End CompatProperties.

(** * Further properties of the code *)

(** ** The inversion mask, applied twice, and bits that stay bits *)

Lemma corrected_bit_stays_below_2 bit mask :
  bit < 2 → corrected_bit bit mask < 2.
Proof.
  intros Hlt. rewrite corrected_bit_below_2 by done.
  destruct mask; simpl; [|by rewrite Z.lxor_0_r].
  destruct (decide (0 ≤ bit)) as [Hnn|Hneg].
  - assert (bit = 0 ∨ bit = 1) as [-> | ->] by lia; done.
  - assert (¬ 0 ≤ Z.lxor bit 1); [|lia].
    rewrite Z.lxor_nonneg. lia.
Qed.

Lemma corrected_bit_involutive bit mask :
  corrected_bit (corrected_bit bit mask) mask = bit.
Proof.
  destruct (decide (bit < 2)) as [Hlt|Hge].
  - rewrite (corrected_bit_below_2 (corrected_bit bit mask))
      by by apply corrected_bit_stays_below_2.
    rewrite corrected_bit_below_2 by done.
    by rewrite Z.lxor_assoc, Z.lxor_nilpotent, Z.lxor_0_r.
  - rewrite (corrected_bit_from_2 bit) by lia. apply corrected_bit_from_2. lia.
Qed.

Lemma corrected_bits_cons bit bits mask invert_mask :
  corrected_bits (bit :: bits) (mask :: invert_mask)
  = corrected_bit bit mask :: corrected_bits bits invert_mask.
Proof. reflexivity. Qed.

(** X1.  Correcting with the same invert mask a second time gives back the
    measured values, as far as the mask reaches: inverting is its own
    inverse, for bits and for the larger values the code leaves alone. *)
Theorem corrected_bits_twice bits invert_mask :
  corrected_bits (corrected_bits bits invert_mask) invert_mask
  = take (length invert_mask) bits.
Proof.
  revert invert_mask. induction bits as [|bit bits IH]; intros [|mask invert_mask].
  - done.
  - done.
  - done.
  - rewrite !corrected_bits_cons, corrected_bit_involutive, IH. done.
Qed.

(** X2.  If every measured value is a bit, 0 or 1, so is every recorded
    value. *)
Theorem corrected_bits_are_bits bits invert_mask :
  Forall (λ bit, 0 ≤ bit < 2) bits →
  Forall (λ bit, 0 ≤ bit < 2) (corrected_bits bits invert_mask).
Proof.
  intros Hbits. revert invert_mask.
  induction Hbits as [|bit bits Hbit _ IH]; intros [|mask invert_mask];
    [by constructor..|].
  rewrite corrected_bits_cons. constructor; [|by apply IH].
  destruct mask.
  - rewrite corrected_bit_flip by done. lia.
  - by rewrite corrected_bit_unset.
Qed.

Lemma corrected_bits_are_bits_witness :
  Forall (λ bit, 0 ≤ bit < 2) (corrected_bits [1; 0; 1] [true; true; false]).
Proof.
  apply (corrected_bits_are_bits [1; 0; 1] [true; true; false]).
  repeat constructor; lia.
Defined.

(** X3.  An invert mask that is all [False] records the measured values as
    they are, cut to the length of the mask; the empty mask records the
    empty list. *)
Theorem corrected_bits_all_false bits n :
  corrected_bits bits (replicate n false) = take n bits.
Proof.
  revert n. induction bits as [|bit bits IH]; intros [|n]; try done.
  simpl replicate. rewrite corrected_bits_cons, corrected_bit_unset, IH. done.
Qed.

(** ** More on [ActOnArgs.measure] *)

Section measure_more.

Context {PRNG Tensor : Type}.
Variable _perform_measurement : M (@ActOnArgs PRNG Tensor) (list Z).
Variable repr : string → string.

Local Abbreviation log := log_of_measurement_results.


(** X5.  A successful [measure] touches the log at the key only: every other
    key keeps its entry, the keys of the log are the old ones and the new
    one, and the axes, the generator and the tensor are as the measurement
    left them. *)
Theorem measure_frame key invert_mask self self' :
  measure _perform_measurement repr key invert_mask self = (Returned tt, self') →
  (∀ key', key' ≠ key →
     log self' !! key' = (log (_perform_measurement self).2) !! key')
  ∧ (dom (log self') = {[ key ]} ∪ dom (log (_perform_measurement self).2))
  ∧ (key ∉ dom (log (_perform_measurement self).2))
  ∧ (axes self' = axes (_perform_measurement self).2)
  ∧ (prng self' = prng (_perform_measurement self).2)
  ∧ (tensor self' = tensor (_perform_measurement self).2).
Proof.
  intros Hrun.
  destruct (_perform_measurement self) as [[bits|e] self1] eqn:Hperf.
  2:{ by rewrite (measure_perform_raised _ _ _ _ _ _ _ Hperf) in Hrun. }
  destruct (decide (key ∈ dom (log self1))) as [Hdup|Hfresh].
  { by rewrite (measure_duplicate _ _ _ _ _ _ _ Hperf Hdup) in Hrun. }
  rewrite (measure_fresh _ _ _ _ _ _ _ Hperf Hfresh) in Hrun.
  injection Hrun as <-. simpl. repeat split; try done.
  - intros key' Hne. by rewrite lookup_insert_ne.
  - by rewrite dom_insert_L.
Qed.

(** From here on the subclass's measurement leaves the log alone. *)
Hypothesis perform_keeps_log :
  ∀ self, log (_perform_measurement self).2 = log self.

(** X6.  After a [measure] that recorded a result under a key, a second
    [measure] under the same key raises, whatever its mask, and the log
    still holds the first result. *)
Theorem measure_twice_same_key key mask1 mask2 self bits self1 :
  _perform_measurement self = (Returned bits, self1) →
  key ∉ dom (log self1) →
  ∃ e self',
    (measure _perform_measurement repr key mask1;;
     measure _perform_measurement repr key mask2) self = (Raised e, self')
    ∧ log self' = <[key := corrected_bits bits mask1]> (log self1).
Proof.
  intros Hperf Hfresh.
  rewrite (bind_returned _ _ _ _ _ (measure_fresh _ _ key mask1 _ _ _ Hperf Hfresh)).
  set (self2 := set_log _ self1).
  pose proof (perform_keeps_log self2) as Hlog.
  assert (key ∈ dom (log self2)) as Hdup.
  { subst self2. simpl. rewrite dom_insert_L. set_solver. }
  destruct (_perform_measurement self2) as [[bits2|e] self3] eqn:Hperf2;
    simpl in Hlog.
  - eexists _, self3. split; [|done].
    apply (measure_duplicate _ _ _ _ _ _ _ Hperf2). by rewrite Hlog.
  - exists e, self3. split; [|done].
    by apply measure_perform_raised.
Qed.

(** X7.  Two measurements under two different fresh keys both succeed, and
    the log then holds each result under its key, beside the entries it
    had. *)
Theorem measure_two_keys key1 key2 mask1 mask2 self bits1 self1 bits2 self2 :
  key1 ≠ key2 →
  key1 ∉ dom (log self) → key2 ∉ dom (log self) →
  _perform_measurement self = (Returned bits1, self1) →
  _perform_measurement
    (set_log (<[key1 := corrected_bits bits1 mask1]> (log self1)) self1)
  = (Returned bits2, self2) →
  ∃ self',
    (measure _perform_measurement repr key1 mask1;;
     measure _perform_measurement repr key2 mask2) self = (Returned tt, self')
    ∧ log self' !! key1 = Some (corrected_bits bits1 mask1)
    ∧ log self' !! key2 = Some (corrected_bits bits2 mask2)
    ∧ ∀ key, key ≠ key1 → key ≠ key2 → log self' !! key = log self !! key.
Proof.
  intros Hne Hfresh1 Hfresh2 Hperf1 Hperf2.
  pose proof (perform_keeps_log self) as Hlog1. rewrite Hperf1 in Hlog1.
  simpl in Hlog1.
  assert (key1 ∉ dom (log self1)) as Hfresh1' by by rewrite Hlog1.
  rewrite (bind_returned _ _ _ _ _
             (measure_fresh _ _ key1 mask1 _ _ _ Hperf1 Hfresh1')).
  pose proof (perform_keeps_log
                (set_log (<[key1 := corrected_bits bits1 mask1]> (log self1))
                   self1)) as Hlog2.
  rewrite Hperf2 in Hlog2. simpl in Hlog2.
  assert (key2 ∉ dom (log self2)) as Hfresh2'.
  { rewrite Hlog2, Hlog1, dom_insert_L.
    rewrite not_elem_of_union, not_elem_of_singleton. by split. }
  eexists. split; [by apply (measure_fresh _ _ _ _ _ _ _ Hperf2)|].
  simpl. rewrite Hlog2, Hlog1. split; [|split].
  - rewrite lookup_insert_ne by done. by rewrite lookup_insert_eq.
  - by rewrite lookup_insert_eq.
  - intros key Hk1 Hk2. by rewrite !lookup_insert_ne.
Qed.

End measure_more.

(** ** More on [strat_act_on_from_apply_decompose] *)

Section decompose_more.

Context {PRNG Tensor : Type}.
Context {Qubit : Type} `{Countable Qubit}.
Context {Operation Val Shape : Type}.

Local Abbreviation Args := (@ActOnArgs PRNG Tensor).

Variable qubits_of : Operation → list Qubit.
Variable decompose : Val → option (list Operation) * list Qubit * Shape.
Variable act_on : Operation → M Args unit.

Local Abbreviation strat :=
  (strat_act_on_from_apply_decompose qubits_of decompose act_on).
Local Abbreviation Run := (run (PRNG := PRNG) (Tensor := Tensor) (Operation := Operation)).
Local Abbreviation step := (apply_remapped qubits_of act_on).

(** *** The keys and the values of the qubit map *)

Lemma dict_of_enumerate_keys_values (the_axes : list Z) (qubits : list Qubit)
    i acc m :
  dict_of_enumerate the_axes i qubits acc = Returned m →
  (∀ q, is_Some (m !! q) ↔ q ∈ qubits ∨ is_Some (acc !! q))
  ∧ (∀ q a, m !! q = Some a → a ∈ the_axes ∨ acc !! q = Some a).
Proof.
  revert i acc. induction qubits as [|q0 qubits IH]; intros i acc Hm; simpl in Hm.
  - injection Hm as <-. split.
    + intros q. rewrite elem_of_nil. tauto.
    + intros q a Hq. by right.
  - destruct (the_axes !! i) as [a0|] eqn:Ha0; [|done].
    destruct (IH _ _ Hm) as [Hkeys Hvalues]. split.
    + intros q. rewrite Hkeys, elem_of_cons.
      destruct (decide (q = q0)) as [->|Hne].
      * rewrite lookup_insert_eq. split; [by left; left | by intros; right].
      * rewrite lookup_insert_ne by done. tauto.
    + intros q a Hq. destruct (Hvalues q a Hq) as [Hin|Hacc]; [by left|].
      destruct (decide (q = q0)) as [->|Hne].
      * rewrite lookup_insert_eq in Hacc. injection Hacc as <-.
        left. by apply list_elem_of_lookup_2 with i.
      * rewrite lookup_insert_ne in Hacc by done. by right.
Qed.

Lemma remap_known (qubit_map : gmap Qubit Z) (qubits : list Qubit) operation :
  (∀ q, is_Some (qubit_map !! q) ↔ q ∈ qubits) →
  (∀ q, q ∈ qubits_of operation → q ∈ qubits) →
  is_Some (mapM (λ q, qubit_map !! q) (qubits_of operation)).
Proof.
  intros Hkeys Hknown. apply mapM_is_Some_2, Forall_forall.
  intros q Hq. simpl. apply Hkeys. by apply Hknown.
Qed.

Lemma remap_unknown (qubit_map : gmap Qubit Z) (qubits : list Qubit) operation q :
  (∀ q, is_Some (qubit_map !! q) ↔ q ∈ qubits) →
  q ∈ qubits_of operation → q ∉ qubits →
  mapM (λ q, qubit_map !! q) (qubits_of operation) = None.
Proof.
  intros Hkeys Hq Hunknown. apply mapM_None_2, Exists_exists.
  exists q. split; [done|]. apply eq_None_not_Some. by rewrite Hkeys.
Qed.

(** *** The loop, piece by piece *)

Lemma for_each_app {S A} (l1 l2 : list A) (body : A → M S unit) s :
  for_each (l1 ++ l2) body s
  = match for_each l1 body s with
    | (Returned _, s1) => for_each l2 body s1
    | (Raised e, s1) => (Raised e, s1)
    end.
Proof.
  revert s. induction l1 as [|x l1 IH]; intros s; [done|].
  rewrite <- app_comm_cons, !for_each_cons.
  destruct (body x s) as [[[]|e] s1]; [apply IH | done].
Qed.

Lemma for_each_step_returns qubit_map (operations : list Operation) (w : Run) :
  (∀ op, op ∈ operations →
         is_Some (mapM (λ q, qubit_map !! q) (qubits_of op))) →
  (∀ op, op ∈ operations → ∀ a, is_raised (act_on op a).1 = false) →
  (for_each operations (step qubit_map) w).1 = Returned tt.
Proof.
  revert w. induction operations as [|op operations IH]; intros w Hmap Hact;
    [done|].
  rewrite for_each_cons, apply_remapped_unfold.
  destruct (Hmap op) as [new_axes ->]; [by left|].
  specialize (Hact op (list_elem_of_here _ _) (set_axes new_axes (args_of w))) as Hop.
  destruct (act_on op (set_axes new_axes (args_of w))) as [[[]|e] args']; [|done].
  apply IH; intros op' Hop'; [apply Hmap | apply Hact]; by right.
Qed.

Lemma for_each_step_raised qubit_map (operations : list Operation) (w : Run) e :
  (for_each operations (step qubit_map) w).1 = Raised e →
  (e = KeyError
   ∧ ∃ op, op ∈ operations
         ∧ mapM (λ q, qubit_map !! q) (qubits_of op) = None)
  ∨ (∃ op a, op ∈ operations ∧ (act_on op a).1 = Raised e).
Proof.
  revert w. induction operations as [|op operations IH]; intros w; [done|].
  rewrite for_each_cons, apply_remapped_unfold.
  destruct (mapM (λ q, qubit_map !! q) (qubits_of op)) as [new_axes|] eqn:Hmap.
  2:{ intros [= <-]. left. split; [done|]. exists op. split; [by left | done]. }
  destruct (act_on op (set_axes new_axes (args_of w))) as [[[]|e'] args'] eqn:Hact.
  - intros Hrest. destruct (IH _ Hrest) as [(-> & op' & Hin & Hnone)|(op' & a & Hin & Hop')].
    + left. split; [done|]. exists op'. split; [by right | done].
    + right. exists op', a. split; [by right | done].
  - intros [= <-]. right. exists op, (set_axes new_axes (args_of w)).
    split; [by left | by rewrite Hact].
Qed.

Lemma for_each_step_invariant (P : Args → Prop) qubit_map
    (operations : list Operation) (w : Run) :
  (∀ new_axes a, P a → P (set_axes new_axes a)) →
  (∀ op a, P a → P (act_on op a).2) →
  P (args_of w) → P (args_of (for_each operations (step qubit_map) w).2).
Proof.
  intros Haxes Hact. revert w.
  induction operations as [|op operations IH]; intros w Hw; [done|].
  rewrite for_each_cons, apply_remapped_unfold.
  destruct (mapM (λ q, qubit_map !! q) (qubits_of op)) as [new_axes|]; [|done].
  pose proof (Hact op _ (Haxes new_axes _ Hw)) as Hnext.
  destruct (act_on op (set_axes new_axes (args_of w))) as [[[]|e] args'];
    simpl in Hnext; [by apply IH | done].
Qed.

(** *** The strategy *)

Lemma strat_qubit_map val (w : Run) operations qubits shape :
  decompose val = (Some operations, qubits, shape) →
  length qubits = length (axes (args_of w)) →
  ∃ qubit_map : gmap Qubit Z,
    (∀ q, is_Some (qubit_map !! q) ↔ q ∈ qubits)
    ∧ (∀ q a, qubit_map !! q = Some a → a ∈ axes (args_of w))
    ∧ strat val w
      = (match (for_each operations (step qubit_map) w).1 with
         | Returned _ => Returned PyTrue
         | Raised e => Raised e
         end,
         on_args (set_axes (axes (args_of w)))
           (for_each operations (step qubit_map) w).2).
Proof.
  intros Hdec Hlen.
  destruct (strat_decomposable qubits_of decompose act_on _ _ _ _ _ Hdec Hlen)
    as (qubit_map & Hmap & Heq).
  destruct (dict_of_enumerate_keys_values _ _ _ _ _ Hmap) as [Hkeys Hvalues].
  exists qubit_map. split; [|split; [|done]].
  - intros q. rewrite Hkeys, lookup_empty, is_Some_alt. tauto.
  - intros q a Hq. by destruct (Hvalues q a Hq).
Qed.

(** X8.  If the value decomposes over as many qubits as the context has
    axes, every sub-operation acts on decomposed qubits only and [act_on]
    returns on each of them, the strategy returns [True], having applied
    every sub-operation, in order. *)
Theorem strat_succeeds val (w : Run) operations qubits shape :
  decompose val = (Some operations, qubits, shape) →
  length qubits = length (axes (args_of w)) →
  (∀ op q, op ∈ operations → q ∈ qubits_of op → q ∈ qubits) →
  (∀ op, op ∈ operations → ∀ a, is_raised (act_on op a).1 = false) →
  ∃ apps,
    (strat val w).1 = Returned PyTrue
    ∧ history (strat val w).2 = history w ++ apps
    ∧ applied_op <$> apps = operations
    ∧ Forall (λ app, applied_ok app = true) apps.
Proof.
  intros Hdec Hlen Hknown Hact.
  destruct (strat_qubit_map _ _ _ _ _ Hdec Hlen) as (qubit_map & Hkeys & _ & Heq).
  assert ((for_each operations (step qubit_map) w).1 = Returned tt) as Hret.
  { apply for_each_step_returns; [|done].
    intros op Hop. apply (remap_known _ qubits); [done|].
    intros q. by apply Hknown. }
  destruct (for_each_step_history qubits_of act_on qubit_map operations w)
    as (apps & Hhist & _ & _ & _ & Hall).
  destruct (Hall Hret) as [Hops Hoks].
  exists apps. rewrite Heq, Hret. done.
Qed.

(** X9.  If a sub-operation acts on a qubit that is not among the decomposed
    ones, and the sub-operations before it are applied without trouble,
    the strategy raises [KeyError]: the operations before it have been
    applied, neither it nor those after it have, and the axes are the ones
    the context had. *)
Theorem strat_unknown_qubit_raises val (w : Run) before op after qubits shape q :
  decompose val = (Some (before ++ op :: after), qubits, shape) →
  length qubits = length (axes (args_of w)) →
  (∀ op' q', op' ∈ before → q' ∈ qubits_of op' → q' ∈ qubits) →
  (∀ op', op' ∈ before → ∀ a, is_raised (act_on op' a).1 = false) →
  q ∈ qubits_of op → q ∉ qubits →
  ∃ apps,
    (strat val w).1 = Raised KeyError
    ∧ history (strat val w).2 = history w ++ apps
    ∧ applied_op <$> apps = before
    ∧ axes (args_of (strat val w).2) = axes (args_of w).
Proof.
  intros Hdec Hlen Hknown Hact Hq Hunknown.
  destruct (strat_qubit_map _ _ _ _ _ Hdec Hlen) as (qubit_map & Hkeys & _ & Heq).
  assert ((for_each before (step qubit_map) w).1 = Returned tt) as Hret.
  { apply for_each_step_returns; [|done].
    intros op' Hop'. apply (remap_known _ qubits); [done|].
    intros q'. by apply Hknown. }
  destruct (for_each_step_history qubits_of act_on qubit_map before w)
    as (apps & Hhist & _ & _ & _ & Hall).
  destruct (Hall Hret) as [Hops _].
  exists apps. rewrite Heq, for_each_app.
  destruct (for_each before (step qubit_map) w) as [[[]|e] w1]; [|done].
  rewrite for_each_cons, apply_remapped_unfold.
  by rewrite (remap_unknown _ qubits op q).
Qed.

(** X10.  If [act_on] raises on a sub-operation, whatever the context, and
    the sub-operations before it are applied without trouble, the strategy
    raises that very exception: the operations up to and including the
    failing one have been tried, those after it have not, and the axes are
    the ones the context had. *)
Theorem strat_propagates_exception val (w : Run) before op after qubits shape e :
  decompose val = (Some (before ++ op :: after), qubits, shape) →
  length qubits = length (axes (args_of w)) →
  (∀ op' q', op' ∈ before ++ [op] → q' ∈ qubits_of op' → q' ∈ qubits) →
  (∀ op', op' ∈ before → ∀ a, is_raised (act_on op' a).1 = false) →
  (∀ a, (act_on op a).1 = Raised e) →
  ∃ apps,
    (strat val w).1 = Raised e
    ∧ history (strat val w).2 = history w ++ apps
    ∧ applied_op <$> apps = before ++ [op]
    ∧ axes (args_of (strat val w).2) = axes (args_of w).
Proof.
  intros Hdec Hlen Hknown Hact Hfail.
  destruct (strat_qubit_map _ _ _ _ _ Hdec Hlen) as (qubit_map & Hkeys & _ & Heq).
  assert ((for_each before (step qubit_map) w).1 = Returned tt) as Hret.
  { apply for_each_step_returns; [|done].
    intros op' Hop'. apply (remap_known _ qubits); [done|].
    intros q'. apply Hknown. apply elem_of_app. by left. }
  destruct (for_each_step_history qubits_of act_on qubit_map before w)
    as (apps & Hhist & _ & _ & _ & Hall).
  destruct (Hall Hret) as [Hops _].
  destruct (remap_known qubit_map qubits op Hkeys) as [new_axes Hmap].
  { intros q'. apply Hknown. apply elem_of_app. right. by left. }
  rewrite Heq, for_each_app.
  destruct (for_each before (step qubit_map) w) as [[[]|e'] w1]; [|done].
  rewrite for_each_cons, apply_remapped_unfold, Hmap.
  specialize (Hfail (set_axes new_axes (args_of w1))).
  destruct (act_on op (set_axes new_axes (args_of w1))) as [r args'].
  simpl in Hfail. subst r. simpl in *.
  eexists. split; [done|]. split; [|split; [|done]].
  - rewrite Hhist, <- app_assoc. done.
  - by rewrite fmap_app, Hops.
Qed.

(** X11.  The strategy raises nothing of its own but the [AssertionError] of
    the arity check, which leaves the context untouched, and the
    [KeyError] of a sub-operation on a qubit unknown to the decomposition;
    any other exception was raised by [act_on] on a sub-operation.  A value
    that does not decompose never makes it raise. *)
Theorem strat_raises_only val (w : Run) e w' :
  strat val w = (Raised e, w') →
  ∃ operations qubits shape,
    decompose val = (Some operations, qubits, shape)
    ∧ ((length qubits ≠ length (axes (args_of w))
        ∧ e = AssertionError "" ∧ w' = w)
       ∨ (length qubits = length (axes (args_of w))
          ∧ ((e = KeyError
              ∧ ∃ op q, op ∈ operations ∧ q ∈ qubits_of op ∧ q ∉ qubits)
             ∨ (∃ op a, op ∈ operations ∧ (act_on op a).1 = Raised e)))).
Proof.
  intros Hrun.
  destruct (decompose val) as [[[operations|] qubits] shape] eqn:Hdec.
  2:{ by rewrite (strat_not_decomposable _ _ _ _ _ _ _ Hdec) in Hrun. }
  exists operations, qubits, shape. split; [done|].
  destruct (decide (length qubits = length (axes (args_of w)))) as [Hlen|Hlen].
  - right. split; [done|].
    destruct (strat_qubit_map _ _ _ _ _ Hdec Hlen)
      as (qubit_map & Hkeys & _ & Heq).
    rewrite Heq in Hrun.
    destruct ((for_each operations (step qubit_map) w).1) as [[]|e'] eqn:Hloop;
      [done|].
    injection Hrun as -> _.
    destruct (for_each_step_raised _ _ _ _ Hloop)
      as [(-> & op & Hop & Hnone)|Hact]; [left | by right].
    split; [done|].
    apply mapM_None_1, Exists_exists in Hnone as (q & Hq & Hnone).
    exists op, q. split; [done|]. split; [done|].
    rewrite <- Hkeys, Hnone. by intros [? ?].
  - left. split; [done|].
    rewrite (strat_wrong_arity _ _ _ _ _ _ _ _ Hdec Hlen) in Hrun.
    by injection Hrun as <- <-.
Qed.

(** X12.  Every call of [act_on] the strategy makes carries axes of the
    context, one for each qubit of the sub-operation: remapping invents no
    axis. *)
Theorem strat_axes_within_context val (w : Run) :
  ∃ apps,
    history (strat val w).2 = history w ++ apps
    ∧ Forall (λ app,
        length (applied_axes app) = length (qubits_of (applied_op app))
        ∧ ∀ a, a ∈ applied_axes app → a ∈ axes (args_of w)) apps.
Proof.
  destruct (decompose val) as [[[operations|] qubits] shape] eqn:Hdec.
  2:{ exists []. rewrite (strat_not_decomposable _ _ _ _ _ _ _ Hdec).
      by rewrite app_nil_r. }
  destruct (decide (length qubits = length (axes (args_of w)))) as [Hlen|Hlen].
  2:{ exists []. rewrite (strat_wrong_arity _ _ _ _ _ _ _ _ Hdec Hlen).
      by rewrite app_nil_r. }
  destruct (strat_qubit_map _ _ _ _ _ Hdec Hlen)
    as (qubit_map & _ & Hvalues & Heq).
  destruct (for_each_step_history qubits_of act_on qubit_map operations w)
    as (apps & Hhist & _ & Hmapped & _ & _).
  exists apps. rewrite Heq. split; [done|].
  eapply Forall_impl; [exact Hmapped|]. intros app Hall. simpl in Hall. split.
  - symmetry. exact (Forall2_length _ _ _ Hall).
  - intros a [i Hi]%list_elem_of_lookup.
    destruct (Forall2_lookup_r _ _ _ _ _ Hall Hi) as (q & _ & Hq).
    by apply (Hvalues q).
Qed.

(** X13.  Whatever [act_on] keeps true of the context the strategy keeps
    true as well, provided it does not depend on the axes: for instance
    that the measurement log is unchanged, or only grows. *)
Theorem strat_preserves_invariant (P : Args → Prop) val (w : Run) :
  (∀ new_axes a, P a → P (set_axes new_axes a)) →
  (∀ op a, P a → P (act_on op a).2) →
  P (args_of w) → P (args_of (strat val w).2).
Proof.
  intros Haxes Hact Hw.
  destruct (decompose val) as [[[operations|] qubits] shape] eqn:Hdec.
  2:{ by rewrite (strat_not_decomposable _ _ _ _ _ _ _ Hdec). }
  destruct (decide (length qubits = length (axes (args_of w)))) as [Hlen|Hlen].
  2:{ by rewrite (strat_wrong_arity _ _ _ _ _ _ _ _ Hdec Hlen). }
  destruct (strat_qubit_map _ _ _ _ _ Hdec Hlen) as (qubit_map & _ & _ & ->).
  simpl. apply Haxes. by apply for_each_step_invariant.
Qed.

(** X14.  A value that decomposes into no operation at all, over as many
    qubits as the context has axes, makes the strategy return [True] and
    leave the context and the history exactly as they were: an empty
    decomposition is a success, unlike a missing one. *)
Theorem strat_empty_decomposition val (w : Run) qubits shape :
  decompose val = (Some [], qubits, shape) →
  length qubits = length (axes (args_of w)) →
  strat val w = (Returned PyTrue, w).
Proof.
  intros Hdec Hlen.
  destruct (strat_qubit_map _ _ _ _ _ Hdec Hlen) as (qubit_map & _ & _ & ->).
  simpl. by destruct w as [[]].
Qed.

End decompose_more.

(** ** More on the deprecation helpers, as the tests use them *)

Module CompatMore.
Import Compat CompatProperties.



End CompatMore.

(** ** The further properties at work on the small simulator *)

Ltac by_membership Hin :=
  repeat (apply elem_of_cons in Hin as [-> | Hin]);
  [.. | by apply elem_of_nil in Hin].


Lemma measure_frame_witness :
  (∀ key', key' ≠ "m" →
     log_of_measurement_results
       (measure Toy.perform_measurement Toy.repr "m" [true]
          (Toy.args0 [3] {[ "k" := [1] ]} [0])).2 !! key'
     = (log_of_measurement_results
          (Toy.perform_measurement (Toy.args0 [3] {[ "k" := [1] ]} [0])).2)
         !! key')
  ∧ axes (measure Toy.perform_measurement Toy.repr "m" [true]
            (Toy.args0 [3] {[ "k" := [1] ]} [0])).2 = [3].
Proof.
  destruct (measure_frame Toy.perform_measurement Toy.repr "m" [true]
              (Toy.args0 [3] {[ "k" := [1] ]} [0])
              (measure Toy.perform_measurement Toy.repr "m" [true]
                 (Toy.args0 [3] {[ "k" := [1] ]} [0])).2)
    as (Hothers & _ & _ & Haxes & _).
  - vm_compute. reflexivity.
  - split; [exact Hothers | exact Haxes].
Defined.

Lemma measure_twice_same_key_witness :
  ∃ e self',
    (measure Toy.perform_measurement Toy.repr "m" [true; false];;
     measure Toy.perform_measurement Toy.repr "m" [false; false])
      (ToyRuns.measured [1; 1])
    = (Raised e, self')
    ∧ log_of_measurement_results self' = <[ "m" := [0; 1] ]> ∅.
Proof.
  apply (measure_twice_same_key Toy.perform_measurement Toy.repr
           (λ self, eq_refl) "m" [true; false] [false; false]
           (ToyRuns.measured [1; 1]) [1; 1]
           (Toy.perform_measurement (ToyRuns.measured [1; 1])).2).
  - reflexivity.
  - by_computation.
Defined.

Lemma measure_two_keys_witness :
  ∃ self',
    (measure Toy.perform_measurement Toy.repr "a" [true; false];;
     measure Toy.perform_measurement Toy.repr "b" [false; true])
      (ToyRuns.measured [1; 1])
    = (Returned tt, self')
    ∧ log_of_measurement_results self' !! "a" = Some [0; 1]
    ∧ log_of_measurement_results self' !! "b" = Some [1; 0]
    ∧ ∀ key, key ≠ "a" → key ≠ "b" →
        log_of_measurement_results self' !! key
        = log_of_measurement_results (ToyRuns.measured [1; 1]) !! key.
Proof.
  apply (measure_two_keys Toy.perform_measurement Toy.repr (λ self, eq_refl)
           "a" "b" [true; false] [false; true] (ToyRuns.measured [1; 1])
           [1; 1] (Toy.perform_measurement (ToyRuns.measured [1; 1])).2
           [1; 1]
           (Toy.perform_measurement
              (set_log (<[ "a" := [0; 1] ]> ∅)
                 (Toy.perform_measurement (ToyRuns.measured [1; 1])).2)).2).
  - discriminate.
  - by_computation.
  - by_computation.
  - reflexivity.
  - reflexivity.
Defined.

Lemma strat_succeeds_witness :
  ∃ apps,
    (Toy.strat (Some ToyRuns.two_ops) (Toy.run0 [5; 7])).1 = Returned PyTrue
    ∧ history (Toy.strat (Some ToyRuns.two_ops) (Toy.run0 [5; 7])).2 = [] ++ apps
    ∧ applied_op <$> apps = ToyRuns.two_ops
    ∧ Forall (λ app, applied_ok app = true) apps.
Proof.
  apply (strat_succeeds Toy.op_qubits Toy.try_decompose Toy.act_on
           (Some ToyRuns.two_ops) (Toy.run0 [5; 7]) _ [10; 11]%nat tt).
  - reflexivity.
  - reflexivity.
  - intros op q Hin Hq. by_membership Hin; by_membership Hq; by_computation.
  - intros op Hin a. by_membership Hin; reflexivity.
Defined.

Lemma strat_unknown_qubit_raises_witness :
  ∃ apps,
    (Toy.strat (Some ToyRuns.stray_ops) (Toy.run0 [5; 7])).1 = Raised KeyError
    ∧ history (Toy.strat (Some ToyRuns.stray_ops) (Toy.run0 [5; 7])).2
      = [] ++ apps
    ∧ applied_op <$> apps = [Toy.mkOp [11; 10]%nat false]
    ∧ axes (args_of (Toy.strat (Some ToyRuns.stray_ops) (Toy.run0 [5; 7])).2)
      = [5; 7].
Proof.
  apply (strat_unknown_qubit_raises Toy.op_qubits Toy.try_decompose Toy.act_on
           (Some ToyRuns.stray_ops) (Toy.run0 [5; 7])
           [Toy.mkOp [11; 10]%nat false] (Toy.mkOp [12]%nat false)
           [Toy.mkOp [10]%nat false] [10; 11]%nat tt 12%nat).
  - reflexivity.
  - reflexivity.
  - intros op q Hin Hq. by_membership Hin; by_membership Hq; by_computation.
  - intros op Hin a. by_membership Hin; reflexivity.
  - by_computation.
  - by_computation.
Defined.

Lemma strat_propagates_exception_witness :
  ∃ apps,
    (Toy.strat (Some Toy.three_ops) (Toy.run0 [5; 7])).1
    = Raised (Foreign "TypeError")
    ∧ history (Toy.strat (Some Toy.three_ops) (Toy.run0 [5; 7])).2 = [] ++ apps
    ∧ applied_op <$> apps
      = [Toy.mkOp [11; 10]%nat false] ++ [Toy.mkOp [10]%nat true]
    ∧ axes (args_of (Toy.strat (Some Toy.three_ops) (Toy.run0 [5; 7])).2)
      = [5; 7].
Proof.
  apply (strat_propagates_exception Toy.op_qubits Toy.try_decompose Toy.act_on
           (Some Toy.three_ops) (Toy.run0 [5; 7])
           [Toy.mkOp [11; 10]%nat false] (Toy.mkOp [10]%nat true)
           [Toy.mkOp [11]%nat false] [10; 11]%nat tt (Foreign "TypeError")).
  - reflexivity.
  - reflexivity.
  - intros op q Hin Hq. by_membership Hin; by_membership Hq; by_computation.
  - intros op Hin a. by_membership Hin; reflexivity.
  - intros a. reflexivity.
Defined.

Lemma strat_raises_only_witness :
  ∃ operations qubits shape,
    Toy.try_decompose (Some Toy.three_ops) = (Some operations, qubits, shape)
    ∧ ((length qubits ≠ 2%nat
        ∧ Foreign "TypeError" = AssertionError ""
        ∧ (Toy.strat (Some Toy.three_ops) (Toy.run0 [5; 7])).2 = Toy.run0 [5; 7])
       ∨ (length qubits = 2%nat
          ∧ ((Foreign "TypeError" = KeyError
              ∧ ∃ op q, op ∈ operations ∧ q ∈ Toy.op_qubits op ∧ q ∉ qubits)
             ∨ (∃ op a, op ∈ operations
                      ∧ (Toy.act_on op a).1 = Raised (Foreign "TypeError"))))).
Proof.
  apply (strat_raises_only Toy.op_qubits Toy.try_decompose Toy.act_on
           (Some Toy.three_ops) (Toy.run0 [5; 7])).
  vm_compute. reflexivity.
Defined.

Lemma strat_axes_within_context_witness :
  ∃ apps,
    history (Toy.strat (Some Toy.three_ops) (Toy.run0 [5; 7])).2 = [] ++ apps
    ∧ Forall (λ app,
        length (applied_axes app) = length (Toy.op_qubits (applied_op app))
        ∧ ∀ a, a ∈ applied_axes app → a ∈ [5; 7]) apps.
Proof.
  apply (strat_axes_within_context Toy.op_qubits Toy.try_decompose Toy.act_on
           (Some Toy.three_ops) (Toy.run0 [5; 7])).
Defined.

Lemma strat_preserves_invariant_witness :
  log_of_measurement_results
    (args_of (Toy.strat (Some Toy.three_ops) (Toy.run0 [5; 7])).2) = ∅.
Proof.
  apply (strat_preserves_invariant Toy.op_qubits Toy.try_decompose Toy.act_on
           (λ a, log_of_measurement_results a = ∅)).
  - intros new_axes a Ha. exact Ha.
  - intros op a Ha. unfold Toy.act_on. destruct (Toy.op_fails op); exact Ha.
  - reflexivity.
Defined.

Lemma strat_empty_decomposition_witness :
  Toy.strat (Some []) (Toy.run0 [5; 7]) = (Returned PyTrue, Toy.run0 [5; 7]).
Proof.
  apply (strat_empty_decomposition Toy.op_qubits Toy.try_decompose Toy.act_on
           (Some []) (Toy.run0 [5; 7]) [10; 11]%nat tt).
  - reflexivity.
  - reflexivity.
Defined.
